(** * EventSphere admin dashboard: the authentication context, the
    role/permission predicates and the event API wrappers.

    The development follows the TypeScript sources:
    - [AuthContext.tsx] ([AuthProvider] with [checkAuth], [login], [logout],
      [updateUser]; [ROLES], [PERMISSIONS], [ROLE_PERMISSIONS], [hasRole],
      [hasPermission]);
    - [lib/api/events.ts] ([updateEvent], [declineEvent]; further on the
      remaining wrappers, [createEventWithFiles], [updateEventWithFiles],
      [getEvents], [getEventDetails], and [getUsers] of [lib/api/users.ts]);
    - the pages and components built on them: [CreateEventPage],
      [EventDetailsPage], [EventsPage], [FileUpload], [DashSidebar].

    JavaScript exceptions are explicit results ([Ok] / [Throw]); React state,
    browser storage and the backend are threaded through a state-and-error
    monad, together with a trace of the calls the code performs. *)

From stdpp Require Import gmap strings list fin_maps pretty.

#[local] Set Warnings "-register-all".

Open Scope string_scope.

(** ** JavaScript values, exceptions and completion records *)

Module JS.

(** The values that cross the API boundary as JSON. *)
Inductive Value : Type :=
| VUndefined
| VNull
| VBool (b : bool)
| VNum (n : Z)
| VStr (s : string)
| VArr (elems : list Value)
| VObj (props : list (string * Value)).

(** An object is an ordered list of own properties with distinct keys, in
    the order of insertion: the order JavaScript keeps for property names
    that are not integer-like, as the names of the records here. *)
Definition Obj : Type := list (string * Value).

(** Exceptions the code distinguishes: [err instanceof ApiError] against
    everything else. *)
Inductive Error : Type :=
| ApiError (message : string)
| TypeError (message : string)
| OtherError (message : string).

Definition instanceof_ApiError (err : Error) : bool :=
  match err with
  | ApiError _ => true
  | _ => false
  end.

Definition message (err : Error) : string :=
  match err with
  | ApiError m | TypeError m | OtherError m => m
  end.

(** Normal or abrupt completion of a call. *)
Inductive Res (A : Type) : Type :=
| Ok (a : A)
| Throw (err : Error).
Arguments Ok {A} a.
Arguments Throw {A} err.

(** ToBoolean on strings: only the empty string is falsy. *)
Definition truthy (s : string) : bool :=
  match s with
  | EmptyString => false
  | String _ _ => true
  end.

(** ToBoolean on [string | null]. *)
Definition truthy_opt (s : option string) : bool :=
  match s with
  | Some s => truthy s
  | None => false
  end.

(** [Array.prototype.some]: left to right, stops at the first element for
    which the callback answers [true]; an exception of the callback
    propagates. *)
Fixpoint Array_some {A : Type} (f : A -> Res bool) (l : list A) : Res bool :=
  match l with
  | [] => Ok false
  | x :: l' =>
      match f x with
      | Ok true => Ok true
      | Ok false => Array_some f l'
      | Throw err => Throw err
      end
  end.

(** [Array.prototype.includes] on an array of strings. *)
Definition Array_includes (l : list string) (x : string) : bool :=
  bool_decide (x ∈ l).

(** The property names every object literal inherits from
    [Object.prototype]: each is bound to a built-in function (or, for
    [__proto__], to the prototype object itself). *)
Definition Object_prototype_keys : list string :=
  [ "constructor"; "__proto__"; "hasOwnProperty"; "isPrototypeOf";
    "propertyIsEnumerable"; "toLocaleString"; "toString"; "valueOf";
    "__defineGetter__"; "__defineSetter__"; "__lookupGetter__";
    "__lookupSetter__" ].

(** What [table[key]] evaluates to for an object literal [table] whose own
    properties are all arrays of strings: the own property, else the
    property inherited from [Object.prototype], else [undefined]. *)
Inductive Lookup : Type :=
| OwnEntry (entry : list string)
| Inherited
| Undefined.

Definition get (table : gmap string (list string)) (key : string) : Lookup :=
  match table !! key with
  | Some entry => OwnEntry entry
  | None =>
      if bool_decide (key ∈ Object_prototype_keys) then Inherited
      else Undefined
  end.

End JS.

Import JS.

(** ** Roles, permissions and the static table *)

Module ROLES.
Definition ADMIN : string := "Admin".
Definition ORGANIZER : string := "Organizer".
Definition PARTICIPANT : string := "Participant".
Definition VISITOR : string := "Visitor".
End ROLES.

Module PERMISSIONS.
Definition CREATE_EVENT : string := "create_event".
Definition EDIT_EVENT : string := "edit_event".
Definition DELETE_EVENT : string := "delete_event".
Definition APPROVE_EVENT : string := "approve_event".
Definition PUBLISH_EVENT : string := "publish_event".
Definition VIEW_ALL_EVENTS : string := "view_all_events".
Definition MANAGE_USERS : string := "manage_users".
Definition VIEW_USERS : string := "view_users".
Definition UPDATE_USER_ROLES : string := "update_user_roles".
Definition ACTIVATE_DEACTIVATE_USERS : string := "activate_deactivate_users".
Definition MANAGE_REGISTRATIONS : string := "manage_registrations".
Definition MARK_ATTENDANCE : string := "mark_attendance".
Definition GENERATE_CERTIFICATES : string := "generate_certificates".
Definition SYSTEM_SETTINGS : string := "system_settings".
Definition VIEW_ANALYTICS : string := "view_analytics".
End PERMISSIONS.

Definition ADMIN_PERMISSIONS : list string :=
  [ PERMISSIONS.CREATE_EVENT; PERMISSIONS.EDIT_EVENT;
    PERMISSIONS.DELETE_EVENT; PERMISSIONS.APPROVE_EVENT;
    PERMISSIONS.PUBLISH_EVENT; PERMISSIONS.VIEW_ALL_EVENTS;
    PERMISSIONS.MANAGE_USERS; PERMISSIONS.VIEW_USERS;
    PERMISSIONS.UPDATE_USER_ROLES; PERMISSIONS.ACTIVATE_DEACTIVATE_USERS;
    PERMISSIONS.MANAGE_REGISTRATIONS; PERMISSIONS.MARK_ATTENDANCE;
    PERMISSIONS.GENERATE_CERTIFICATES; PERMISSIONS.SYSTEM_SETTINGS;
    PERMISSIONS.VIEW_ANALYTICS ].

Definition ORGANIZER_PERMISSIONS : list string :=
  [ PERMISSIONS.CREATE_EVENT; PERMISSIONS.EDIT_EVENT;
    PERMISSIONS.DELETE_EVENT; PERMISSIONS.VIEW_ALL_EVENTS;
    PERMISSIONS.MANAGE_REGISTRATIONS; PERMISSIONS.MARK_ATTENDANCE;
    PERMISSIONS.GENERATE_CERTIFICATES ].

(** The own properties of the [ROLE_PERMISSIONS] literal. *)
Definition ROLE_PERMISSIONS : gmap string (list string) :=
  <[ROLES.ADMIN := ADMIN_PERMISSIONS]>
  (<[ROLES.ORGANIZER := ORGANIZER_PERMISSIONS]>
  (<[ROLES.PARTICIPANT := []]>
  (<[ROLES.VISITOR := []]> ∅))).

(** [userRoles.includes(requiredRole)] *)
Definition hasRole (userRoles : list string) (requiredRole : string) : bool :=
  Array_includes userRoles requiredRole.

(** The callback of [hasPermission]:
    [rolePermissions ? rolePermissions.includes(permission) : false] with
    [rolePermissions = ROLE_PERMISSIONS[role]].  An inherited built-in is
    truthy and has no [includes] method, so calling it raises. *)
Definition role_grants (permission role : string) : Res bool :=
  match JS.get ROLE_PERMISSIONS role with
  | OwnEntry rolePermissions => Ok (Array_includes rolePermissions permission)
  | Inherited => Throw (TypeError "rolePermissions.includes is not a function")
  | Undefined => Ok false
  end.

Definition hasPermission (userRoles : list string) (permission : string)
  : Res bool :=
  Array_some (role_grants permission) userRoles.

Definition isAdmin (userRoles : list string) : bool :=
  hasRole userRoles ROLES.ADMIN.
Definition isOrganizer (userRoles : list string) : bool :=
  hasRole userRoles ROLES.ORGANIZER.
Definition isAdminOrOrganizer (userRoles : list string) : bool :=
  isAdmin userRoles || isOrganizer userRoles.

(** The union of the table's entries for the roles of [R] contains [p]. *)
Definition granted (R : list string) (p : string) : Prop :=
  ∃ r ps, r ∈ R ∧ ROLE_PERMISSIONS !! r = Some ps ∧ p ∈ ps.

(** A permission granted by the Administrator entry and by no other entry. *)
Definition admin_only (p : string) : Prop :=
  p ∈ ADMIN_PERMISSIONS ∧
  ∀ r ps, r ≠ ROLES.ADMIN → ROLE_PERMISSIONS !! r = Some ps → p ∉ ps.

(** ** Objects: property read, property write and object spread *)

(** [o[k]] on own properties. *)
Fixpoint obj_get (o : Obj) (k : string) : option Value :=
  match o with
  | [] => None
  | (k', v) :: o' => if decide (k = k') then Some v else obj_get o' k
  end.

(** [o[k] = v]: an existing property keeps its position, a new one is
    appended. *)
Fixpoint obj_set (o : Obj) (k : string) (v : Value) : Obj :=
  match o with
  | [] => [(k, v)]
  | (k', v') :: o' =>
      if decide (k = k') then (k', v) :: o' else (k', v') :: obj_set o' k v
  end.

(** [{ ...target, ...source }]: the properties of [source] are written onto
    a copy of [target], in order. *)
Definition spread (target source : Obj) : Obj :=
  foldl (λ acc kv, obj_set acc kv.1 kv.2) target source.

Definition keys (o : Obj) : list string := o.*1.

(** [user?.roles || []], as the pages pass it to [hasPermission]; the
    [roles] field of a user record is an array of strings. *)
Definition user_roles (user : option Obj) : list string :=
  match user with
  | Some u =>
      match obj_get u "roles" with
      | Some (VArr roles) =>
          omap (λ v, match v with VStr s => Some s | _ => None end) roles
      | _ => []
      end
  | None => []
  end.

(** ** The world the code runs in *)

(** The [User] record of [types/auth]: a plain object. *)
Definition User : Type := Obj.

Definition Headers : Type := list (string * string).

(** [ApiResponse<T>], with the payload as a JSON value. *)
Record ApiResponse : Type := { data : Value }.

(** What [loginUser] resolves to; the code reads its [user] property. *)
Record AuthResponse : Type := { resp_user : User }.

(** Browser storage and the remote backend.  [quota_exceeded] makes
    [localStorage.setItem] raise, as browsers do when the quota is used up. *)
Record Env (B : Type) : Type := {
  token_store : option string;
  local_storage : gmap string string;
  quota_exceeded : bool;
  backend : B
}.
Arguments token_store {B} _.
Arguments local_storage {B} _.
Arguments quota_exceeded {B} _.
Arguments backend {B} _.

(** The calls an execution performs, oldest first. *)
Inductive Call : Type :=
| CSetUser (u : option User)
| CSetIsLoading (b : bool)
| CSetError (e : option string)
| CTokenGet
| CTokenRemove
| CGetAuthHeader
| CGetItem (key : string)
| CSetItem (key value : string)
| CValidateToken (token : string)
| CRefreshAccessToken
| CLoginUser (email password : string)
| CLogoutUser
| CApiPut (url : string) (body : Value) (headers : Headers)
| CConsole (level text : string).

#[global] Instance Call_eq_dec_refresh (c : Call) :
  Decision (c = CRefreshAccessToken).
Proof. destruct c; (by left) || (by right). Defined.

#[global] Instance Call_eq_dec_loading_off (c : Call) :
  Decision (c = CSetIsLoading false).
Proof. destruct c as [| [] | | | | | | | | | | | |]; (by left) || (by right). Defined.

(** The state of [AuthProvider] (its three [useState] cells), the
    environment, and the trace. *)
Record World (B : Type) : Type := {
  user : option User;
  isLoading : bool;
  error : option string;
  env : Env B;
  trace : list Call
}.
Arguments user {B} _.
Arguments isLoading {B} _.
Arguments error {B} _.
Arguments env {B} _.
Arguments trace {B} _.

(** The initial render: [useState(null)], [useState(true)],
    [useState(null)]. *)
Definition initial {B : Type} (e : Env B) : World B :=
  {| user := None; isLoading := true; error := None; env := e; trace := [] |}.

(** A computation over the world that returns or throws. *)
Definition M (B A : Type) : Type := World B → Res A * World B.

(** A function of an absent module: it sees the environment only. *)
Definition Api (B A : Type) : Type := Env B → Res A * Env B.

#[global] Instance M_ret {B} : MRet (M B) := λ A a w, (Ok a, w).

#[global] Instance M_bind {B} : MBind (M B) := λ A1 A2 k m w,
  match m w with
  | (Ok a, w') => k a w'
  | (Throw err, w') => (Throw err, w')
  end.

Definition throw {B A} (err : Error) : M B A := λ w, (Throw err, w).

(** [try { body } catch (err) { handler }] *)
Definition try_catch {B A} (body : M B A) (handler : Error → M B A) : M B A :=
  λ w,
    match body w with
    | (Ok a, w') => (Ok a, w')
    | (Throw err, w') => handler err w'
    end.

(** [try { body } finally { final }]: [final] runs on both exits; when it
    throws, its exception replaces the completion of [body]. *)
Definition try_finally {B A} (body : M B A) (final : M B unit) : M B A :=
  λ w,
    match body w with
    | (r, w') =>
        match final w' with
        | (Ok _, w'') => (r, w'')
        | (Throw err, w'') => (Throw err, w'')
        end
    end.

Definition log {B} (c : Call) : M B unit := λ w,
  (Ok (),
   {| user := user w; isLoading := isLoading w; error := error w;
      env := env w; trace := trace w ++ [c] |}).

(** Run a function of an absent module on the environment. *)
Definition lift {B A} (f : Api B A) : M B A := λ w,
  match f (env w) with
  | (r, e') =>
      (r, {| user := user w; isLoading := isLoading w; error := error w;
             env := e'; trace := trace w |})
  end.

(** The three state setters. *)
Definition setUser {B} (u : option User) : M B unit := λ w,
  (Ok (),
   {| user := u; isLoading := isLoading w; error := error w;
      env := env w; trace := trace w ++ [CSetUser u] |}).

Definition setIsLoading {B} (b : bool) : M B unit := λ w,
  (Ok (),
   {| user := user w; isLoading := b; error := error w;
      env := env w; trace := trace w ++ [CSetIsLoading b] |}).

Definition setError {B} (e : option string) : M B unit := λ w,
  (Ok (),
   {| user := user w; isLoading := isLoading w; error := e;
      env := env w; trace := trace w ++ [CSetError e] |}).

(** [setUser(prev => ...)]: the updater receives the current user; the cell
    takes the value it returns. *)
Definition setUser_with {B} (updater : option User → M B (option User))
  : M B unit := λ w,
  match updater (user w) w with
  | (Ok u, w') =>
      (Ok (),
       {| user := u; isLoading := isLoading w'; error := error w';
          env := env w'; trace := trace w' ++ [CSetUser u] |})
  | (Throw err, w') => (Throw err, w')
  end.

Definition console {B} (level text : string) : M B unit :=
  log (CConsole level text).

(** ** [window.localStorage] *)

Module localStorage.

Definition getItem {B} (key : string) : M B (option string) :=
  log (CGetItem key);; lift (λ e, (Ok (local_storage e !! key), e)).

Definition write {B} (key value : string) (e : Env B) : Env B :=
  {| token_store := token_store e;
     local_storage := <[key := value]> (local_storage e);
     quota_exceeded := quota_exceeded e;
     backend := backend e |}.

Definition setItem {B} (key value : string) : M B unit :=
  log (CSetItem key value);;
  lift (λ e, if quota_exceeded e
             then (Throw (OtherError "QuotaExceededError"), e)
             else (Ok (), write key value e)).

End localStorage.

(** ** The token manager *)

Module tokenManager.

(** Modelled from the spec: [tokenManager] is exported by [lib/utils/api],
    whose source is absent.  [get] returns the current token or the absent
    sentinel; [set] persists the token, overwriting any prior value;
    [remove] clears it; [getAuthHeader] is the header form of the current
    token, or no header when there is none.  None of them throws. *)
Definition get {B} (e : Env B) : option string := token_store e.

Definition set {B} (token : string) (e : Env B) : Env B :=
  {| token_store := Some token;
     local_storage := local_storage e;
     quota_exceeded := quota_exceeded e;
     backend := backend e |}.

Definition remove {B} (e : Env B) : Env B :=
  {| token_store := None;
     local_storage := local_storage e;
     quota_exceeded := quota_exceeded e;
     backend := backend e |}.

Definition header_of (token : string) : Headers :=
  [("Authorization", "Bearer " ++ token)].

Definition getAuthHeader {B} (e : Env B) : Headers :=
  match get e with
  | Some token => header_of token
  | None => []
  end.

End tokenManager.

(** The token manager as the code calls it. *)
Definition tokenManager_get {B} : M B (option string) :=
  log CTokenGet;; lift (λ e, (Ok (tokenManager.get e), e)).

Definition tokenManager_remove {B} : M B unit :=
  log CTokenRemove;; lift (λ e, (Ok (), tokenManager.remove e)).

Definition tokenManager_getAuthHeader {B} : M B Headers :=
  log CGetAuthHeader;; lift (λ e, (Ok (tokenManager.getAuthHeader e), e)).

(** ** The absent modules, as interfaces *)

(** [JSON.parse] restricted to the profile cache ([User | null], or a
    [SyntaxError]) and [JSON.stringify] on a user record. *)
Class Json : Type := {
  JSON_parse : string → Res (option User);
  JSON_stringify : User → string
}.

(** The exports of [lib/api/auth] the context calls.  Each is an
    asynchronous function that settles: it fulfils or rejects, and may
    change storage and backend on the way. *)
Class AuthApi (B : Type) : Type := {
  validateToken : string → Api B (option User);
  refreshAccessToken : Api B unit;
  loginUser : string → string → Api B AuthResponse;
  logoutUser : Api B unit
}.

(** [apiPut] of [lib/utils/api]: one PUT request, its parsed response or an
    exception. *)
Class HttpApi (B : Type) : Type := {
  apiPut : string → Value → Headers → Api B ApiResponse
}.

(** [if (s) { ... }] for [s : string | null]. *)
Definition if_truthy {B} (s : option string) (body : string → M B unit)
  : M B unit :=
  match s with
  | Some s => if truthy s then body s else mret ()
  | None => mret ()
  end.

(** ** [AuthProvider] *)

Section AuthProvider.
Context {B : Type} `{!Json} `{!AuthApi B}.

Definition call_validateToken (token : string) : M B (option User) :=
  log (CValidateToken token);; lift (validateToken token).

Definition call_refreshAccessToken : M B unit :=
  log CRefreshAccessToken;; lift refreshAccessToken.

Definition call_loginUser (email password : string) : M B AuthResponse :=
  log (CLoginUser email password);; lift (loginUser email password).

Definition call_logoutUser : M B unit :=
  log CLogoutUser;; lift logoutUser.

Definition call_JSON_parse (s : string) : M B (option User) :=
  λ w, (JSON_parse s, w).

(** The first inner [try] of [checkAuth]: hydrate from the profile cache. *)
Definition hydrate : M B unit :=
  try_catch
    (storedUser ← localStorage.getItem "auth_user";
     if_truthy storedUser (λ storedUser,
       parsed ← call_JSON_parse storedUser;
       setUser parsed;;
       setIsLoading false))
    (λ _, mret ()).

(** The second inner [try] of [checkAuth]: validate, refresh once,
    validate again. *)
Definition validate (token : string) : M B unit :=
  try_catch
    (userData ← call_validateToken token;
     match userData with
     | Some userData => setUser (Some userData)
     | None =>
         call_refreshAccessToken;;
         newToken ← tokenManager_get;
         if_truthy newToken (λ newToken,
           refreshedUserData ← call_validateToken newToken;
           match refreshedUserData with
           | Some refreshedUserData => setUser (Some refreshedUserData)
           | None => tokenManager_remove;; setUser None
           end)
     end)
    (λ _, tokenManager_remove;; setUser None).

Definition checkAuth : M B unit :=
  try_finally
    (try_catch
       (token ← tokenManager_get;
        if_truthy token (λ token, hydrate;; validate token))
       (λ err,
          console "warn" "Auth check failed:";;
          tokenManager_remove;;
          setUser None))
    (setIsLoading false).

Definition login (email password : string) : M B unit :=
  try_finally
    (try_catch
       (setError None;;
        setIsLoading true;;
        response ← call_loginUser email password;
        setUser (Some (resp_user response)))
       (λ err,
          let errorMessage :=
            if instanceof_ApiError err then message err else "Login failed" in
          setError (Some errorMessage);;
          throw err))
    (setIsLoading false).

Definition logout : M B unit :=
  try_finally
    (try_catch
       (setIsLoading true;;
        call_logoutUser;;
        setUser None)
       (λ err, console "error" "Logout failed:"))
    (setIsLoading false).

Definition clearError : M B unit := setError None.

Definition updateUser (partial : Obj) : M B unit :=
  setUser_with (λ prev,
    match prev with
    | None => mret prev
    | Some prev =>
        let next := spread prev partial in
        try_catch
          (localStorage.setItem "auth_user" (JSON_stringify next))
          (λ _, mret ());;
        mret (Some next)
    end).

End AuthProvider.

(** ** Event API wrappers *)

Section Events.
Context {B : Type} `{!HttpApi B}.

Definition call_apiPut (url : string) (body : Value) (headers : Headers)
  : M B ApiResponse :=
  log (CApiPut url body headers);; lift (apiPut url body headers).

Definition event_url (eventId : string) : string :=
  "/api/v1/admin/events/" ++ eventId.

Definition updateEvent (eventId : string) (eventData : Value) : M B Value :=
  headers ← tokenManager_getAuthHeader;
  response ← call_apiPut (event_url eventId) eventData headers;
  mret (data response).

Definition cancelled : Value := VObj [("status", VStr "cancelled")].

Definition declineEvent (eventId : string) : M B unit :=
  updateEvent eventId cancelled;;
  mret ().

(** The claim as worded: declining is the generic update with the status
    set to the cancellation state. *)
Definition declineEvent_spec (eventId : string) : M B Value :=
  updateEvent eventId cancelled.

End Events.

(** ** Observations used by the statements *)

Definition refresh_calls (tr : list Call) : nat :=
  length (filter (λ c, c = CRefreshAccessToken) tr).

Definition loading_cleared (tr : list Call) : nat :=
  length (filter (λ c, c = CSetIsLoading false) tr).

(** The calls performed between world [w] and a later world [w']. *)
Definition new_calls {B} (w w' : World B) : list Call :=
  drop (length (trace w)) (trace w').

(** Neither the user nor the token survives. *)
Definition session_cleared {B} (w : World B) : Prop :=
  user w = None ∧ token_store (env w) = None.

(** The value a promise of [A] fulfils with, as JavaScript sees it. *)
Class ToJS (A : Type) : Type := to_js : A → Value.
#[global] Instance unit_ToJS : ToJS unit := λ _, VUndefined.
#[global] Instance Value_ToJS : ToJS Value := λ v, v.

(** How an asynchronous call settles, and the world it leaves. *)
Definition settle {B A} `{!ToJS A} (m : M B A) (w : World B)
  : Res Value * World B :=
  match m w with
  | (Ok a, w') => (Ok (to_js a), w')
  | (Throw err, w') => (Throw err, w')
  end.

(** [m] with its result dropped. *)
Definition discard {B A} (m : M B A) : M B unit := m;; mret ().

Section Scenarios.
Context {B : Type} `{!Json} `{!AuthApi B}.

(** The cached profile is read and parsed: [checkAuth] shows it at once. *)
Definition hydrates (w : World B) : bool :=
  truthy_opt (token_store (env w)) &&
  match local_storage (env w) !! "auth_user" with
  | Some storedUser =>
      truthy storedUser &&
      match JSON_parse storedUser with
      | Ok _ => true
      | Throw _ => false
      end
  | None => false
  end.

(** The validate / refresh / validate-again chain started on [token] in
    environment [e] fails. *)
Inductive ChainFails (token : string) (e : Env B) : Prop :=
| validation_throws err e1 :
    validateToken token e = (Throw err, e1) →
    ChainFails token e
| refresh_throws e1 err e2 :
    validateToken token e = (Ok None, e1) →
    refreshAccessToken e1 = (Throw err, e2) →
    ChainFails token e
| revalidation_no_user e1 e2 newToken e3 :
    validateToken token e = (Ok None, e1) →
    refreshAccessToken e1 = (Ok (), e2) →
    token_store e2 = Some newToken → truthy newToken = true →
    validateToken newToken e2 = (Ok None, e3) →
    ChainFails token e
| revalidation_throws e1 e2 newToken err e3 :
    validateToken token e = (Ok None, e1) →
    refreshAccessToken e1 = (Ok (), e2) →
    token_store e2 = Some newToken → truthy newToken = true →
    validateToken newToken e2 = (Throw err, e3) →
    ChainFails token e.

(** How the first validation of [token] ends. *)
Definition first_validation (token : string) (e : Env B)
  : Res (option User) :=
  (validateToken token e).1.

End Scenarios.

(** ** Test doubles *)

(** A scripted backend: what each endpoint answers. *)
Record Script : Type := {
  validate_answer : string → Res (option User);
  refresh_answer : Res string;
  login_answer : string → string → Res AuthResponse;
  logout_answer : Res unit;
  put_answer : Res ApiResponse
}.

#[global] Instance scripted_auth : AuthApi Script := {|
  validateToken token e := (validate_answer (backend e) token, e);
  refreshAccessToken e :=
    match refresh_answer (backend e) with
    | Ok token => (Ok (), tokenManager.set token e)
    | Throw err => (Throw err, e)
    end;
  loginUser email password e :=
    (login_answer (backend e) email password, e);
  logoutUser e := (logout_answer (backend e), e)
|}.

#[global] Instance scripted_http : HttpApi Script := {|
  apiPut url body headers e := (put_answer (backend e), e)
|}.

(** ** [JSON.stringify] and [JSON.parse] on the values of the model

    Texts are sequences of bytes (UTF-8).  Numbers are the integers of
    [VNum]; a number with a fraction or an exponent, an integer a double
    does not hold exactly, and a [\u] escape beyond ASCII are outside the
    model: [parse] answers them as it answers malformed text. *)

Module JSON.

(** The one-character string of a character code. *)
Definition char (code : nat) : string :=
  String (Ascii.ascii_of_nat code) EmptyString.

Definition hex_digit (n : nat) : string :=
  char (if n <? 10 then 48 + n else 87 + n)%nat.

(** QuoteJSONString on one character: the quotation mark, the backslash
    and the control characters are escaped. *)
Definition escape (c : Ascii.ascii) : string :=
  let n := Ascii.nat_of_ascii c in
  if (n =? 34)%nat then char 92 +:+ char 34
  else if (n =? 92)%nat then char 92 +:+ char 92
  else if (n =? 8)%nat then char 92 +:+ "b"
  else if (n =? 9)%nat then char 92 +:+ "t"
  else if (n =? 10)%nat then char 92 +:+ "n"
  else if (n =? 12)%nat then char 92 +:+ "f"
  else if (n =? 13)%nat then char 92 +:+ "r"
  else if (n <? 32)%nat then
    char 92 +:+ "u00" +:+ hex_digit (n / 16) +:+ hex_digit (n mod 16)
  else String c EmptyString.

Fixpoint escape_all (s : string) : string :=
  match s with
  | EmptyString => EmptyString
  | String c rest => escape c +:+ escape_all rest
  end.

Definition quote (s : string) : string := char 34 +:+ escape_all s +:+ char 34.

(** SerializeJSONProperty: [None] is [undefined], which an object leaves
    out and an array prints as [null]. *)
Fixpoint serialize (v : Value) : option string :=
  match v with
  | VUndefined => None
  | VNull => Some "null"
  | VBool b => Some (if b then "true" else "false")
  | VNum n => Some (pretty n)
  | VStr s => Some (quote s)
  | VArr elems =>
      let fix items (l : list Value) : list string :=
        match l with
        | [] => []
        | x :: l' => default "null" (serialize x) :: items l'
        end in
      Some ("[" +:+ String.concat "," (items elems) +:+ "]")
  | VObj props =>
      let fix members (l : list (string * Value)) : list string :=
        match l with
        | [] => []
        | (k, x) :: l' =>
            match serialize x with
            | Some text => (quote k +:+ ":" +:+ text) :: members l'
            | None => members l'
            end
        end in
      Some ("{" +:+ String.concat "," (members props) +:+ "}")
  end.

Definition stringify (o : Obj) : string := default "" (serialize (VObj o)).

(** *** Lexical analysis *)

Inductive Token : Type :=
| TLBrace | TRBrace | TLBracket | TRBracket | TColon | TComma
| TString (s : string)
| TNumber (n : Z)
| TTrue | TFalse | TNull.

Definition is_ws (c : nat) : bool :=
  ((c =? 32) || (c =? 9) || (c =? 10) || (c =? 13))%nat.

Definition is_digit (c : nat) : bool := ((48 <=? c) && (c <=? 57))%nat.

(** The character an escape sequence [\c] stands for. *)
Definition unescape (c : nat) : option nat :=
  if (c =? 34)%nat then Some 34%nat
  else if (c =? 92)%nat then Some 92%nat
  else if (c =? 47)%nat then Some 47%nat
  else if (c =? 98)%nat then Some 8%nat
  else if (c =? 102)%nat then Some 12%nat
  else if (c =? 110)%nat then Some 10%nat
  else if (c =? 114)%nat then Some 13%nat
  else if (c =? 116)%nat then Some 9%nat
  else None.

Definition hex_value (c : nat) : option nat :=
  if is_digit c then Some (c - 48)%nat
  else if ((97 <=? c) && (c <=? 102))%nat then Some (c - 87)%nat
  else if ((65 <=? c) && (c <=? 70))%nat then Some (c - 55)%nat
  else None.

(** The rest of a string literal, after the opening quotation mark: its
    value and what follows the closing mark. *)
Fixpoint lex_string (s : list nat) : option (string * list nat) :=
  match s with
  | [] => None
  | c :: r =>
      if (c =? 34)%nat then Some (EmptyString, r)
      else if (c =? 92)%nat then
        match r with
        | [] => None
        | e :: r' =>
            if (e =? 117)%nat then
              match r' with
              | h1 :: h2 :: h3 :: h4 :: r'' =>
                  match hex_value h1, hex_value h2, hex_value h3,
                        hex_value h4 with
                  | Some 0%nat, Some 0%nat, Some d3, Some d4 =>
                      if (d3 <? 8)%nat then
                        match lex_string r'' with
                        | Some (text, rest) =>
                            Some (String (Ascii.ascii_of_nat (16 * d3 + d4))
                                         text, rest)
                        | None => None
                        end
                      else None
                  | _, _, _, _ => None
                  end
              | _ => None
              end
            else
              match unescape e with
              | Some code =>
                  match lex_string r' with
                  | Some (text, rest) =>
                      Some (String (Ascii.ascii_of_nat code) text, rest)
                  | None => None
                  end
              | None => None
              end
        end
      else if (c <? 32)%nat then None
      else
        match lex_string r with
        | Some (text, rest) => Some (String (Ascii.ascii_of_nat c) text, rest)
        | None => None
        end
  end.

(** The digits at the front of the input, as a number. *)
Fixpoint lex_digits (s : list nat) (acc : Z) : Z * list nat :=
  match s with
  | c :: r =>
      if is_digit c then lex_digits r (10 * acc + Z.of_nat (c - 48))%Z
      else (acc, s)
  | [] => (acc, [])
  end.

(** An integer literal: [0], or a non-zero digit and more digits.  A
    fraction or an exponent is outside the integers of [VNum], and so are
    integers a double does not hold exactly. *)
Definition lex_integer (s : list nat) : option (Z * list nat) :=
  match s with
  | c :: r =>
      if (c =? 48)%nat then Some (0%Z, r)
      else if is_digit c then Some (lex_digits s 0)
      else None
  | [] => None
  end.

Definition ends_number (s : list nat) : bool :=
  match s with
  | c :: _ => negb ((c =? 46) || (c =? 101) || (c =? 69))%nat
  | [] => true
  end.

Definition lex_number (s : list nat) : option (Z * list nat) :=
  match s with
  | c :: r =>
      let signed := (c =? 45)%nat in
      match lex_integer (if signed then r else s) with
      | Some (n, rest) =>
          if ends_number rest && bool_decide (n ≤ 2 ^ 53)%Z
          then Some (if signed then (- n)%Z else n, rest)
          else None
      | None => None
      end
  | [] => None
  end.

Fixpoint lex (fuel : nat) (s : list nat) : option (list Token) :=
  match fuel with
  | O => None
  | S fuel =>
      match s with
      | [] => Some []
      | c :: r =>
          if is_ws c then lex fuel r
          else if (c =? 123)%nat then cons TLBrace <$> lex fuel r
          else if (c =? 125)%nat then cons TRBrace <$> lex fuel r
          else if (c =? 91)%nat then cons TLBracket <$> lex fuel r
          else if (c =? 93)%nat then cons TRBracket <$> lex fuel r
          else if (c =? 58)%nat then cons TColon <$> lex fuel r
          else if (c =? 44)%nat then cons TComma <$> lex fuel r
          else if (c =? 34)%nat then
            match lex_string r with
            | Some (text, rest) => cons (TString text) <$> lex fuel rest
            | None => None
            end
          else if (c =? 116)%nat then
            match r with
            | 114%nat :: 117%nat :: 101%nat :: rest =>
                cons TTrue <$> lex fuel rest
            | _ => None
            end
          else if (c =? 102)%nat then
            match r with
            | 97%nat :: 108%nat :: 115%nat :: 101%nat :: rest =>
                cons TFalse <$> lex fuel rest
            | _ => None
            end
          else if (c =? 110)%nat then
            match r with
            | 117%nat :: 108%nat :: 108%nat :: rest =>
                cons TNull <$> lex fuel rest
            | _ => None
            end
          else
            match lex_number s with
            | Some (n, rest) => cons (TNumber n) <$> lex fuel rest
            | None => None
            end
      end
  end.

(** *** The grammar *)

Fixpoint parse_value (fuel : nat) (ts : list Token)
  : option (Value * list Token) :=
  match fuel with
  | O => None
  | S fuel =>
      match ts with
      | TNull :: r => Some (VNull, r)
      | TTrue :: r => Some (VBool true, r)
      | TFalse :: r => Some (VBool false, r)
      | TNumber n :: r => Some (VNum n, r)
      | TString s :: r => Some (VStr s, r)
      | TLBracket :: TRBracket :: r => Some (VArr [], r)
      | TLBracket :: r =>
          match parse_elements fuel r with
          | Some (elems, r') => Some (VArr elems, r')
          | None => None
          end
      | TLBrace :: TRBrace :: r => Some (VObj [], r)
      | TLBrace :: r =>
          match parse_members fuel r [] with
          | Some (props, r') => Some (VObj props, r')
          | None => None
          end
      | _ => None
      end
  end
with parse_elements (fuel : nat) (ts : list Token)
  : option (list Value * list Token) :=
  match fuel with
  | O => None
  | S fuel =>
      match parse_value fuel ts with
      | Some (v, TComma :: r) =>
          match parse_elements fuel r with
          | Some (elems, r') => Some (v :: elems, r')
          | None => None
          end
      | Some (v, TRBracket :: r) => Some ([v], r)
      | _ => None
      end
  end
with parse_members (fuel : nat) (ts : list Token) (props : Obj)
  : option (Obj * list Token) :=
  match fuel with
  | O => None
  | S fuel =>
      match ts with
      | TString k :: TColon :: r =>
          match parse_value fuel r with
          | Some (v, TComma :: r') => parse_members fuel r' (obj_set props k v)
          | Some (v, TRBrace :: r') => Some (obj_set props k v, r')
          | _ => None
          end
      | _ => None
      end
  end.

Definition codes (s : string) : list nat :=
  map Ascii.nat_of_ascii (String.list_ascii_of_string s).

(** [JSON.parse(text)]: the value, or [None] for a [SyntaxError]. *)
Definition parse (text : string) : option Value :=
  match lex (S (String.length text)) (codes text) with
  | Some ts =>
      match parse_value (S (length ts)) ts with
      | Some (v, []) => Some v
      | _ => None
      end
  | None => None
  end.

End JSON.

(** [JSON.parse] on the profile cache, which holds a user record or
    [null], and [JSON.stringify] on a user record.  A cache holding another
    JSON value (a number, a string, an array) is outside the [User | null]
    of the interface and answered as malformed text is. *)
#[global] Instance json : Json := {|
  JSON_parse text :=
    match JSON.parse text with
    | Some (VObj record) => Ok (Some record)
    | Some VNull => Ok None
    | _ => Throw (OtherError "SyntaxError")
    end;
  JSON_stringify := JSON.stringify
|}.

Definition alice : User :=
  [("id", VStr "u1"); ("email", VStr "alice@example.org");
   ("roles", VArr [VStr "Organizer"]); ("is_active", VBool true)].

(** The fields a role update changes. *)
Definition promotion : Obj :=
  [("roles", VArr [VStr "Organizer"; VStr "Admin"])].

(** A text between quotation marks. *)
Definition quoted (s : string) : string := JSON.char 34 ++ s ++ JSON.char 34.

(** The profile cache of [alice]: the text [JSON.stringify] makes of the
    record. *)
Definition alice_json : string :=
  "{" ++ quoted "id" ++ ":" ++ quoted "u1" ++ ","
  ++ quoted "email" ++ ":" ++ quoted "alice@example.org" ++ ","
  ++ quoted "roles" ++ ":[" ++ quoted "Organizer" ++ "],"
  ++ quoted "is_active" ++ ":true}".

Definition network_error : Error := OtherError "Failed to fetch".

(** Every endpoint is unreachable, except that no credentials are right. *)
Definition offline : Script := {|
  validate_answer _ := Throw network_error;
  refresh_answer := Throw network_error;
  login_answer _ _ := Throw network_error;
  logout_answer := Throw network_error;
  put_answer := Throw network_error
|}.

(** The token has expired and cannot be refreshed; one account exists. *)
Definition expired : Script := {|
  validate_answer _ := Ok None;
  refresh_answer := Throw (ApiError "Refresh token expired");
  login_answer email password :=
    if decide (password = "s3cret")
    then Ok {| resp_user := alice |}
    else Throw (ApiError "Invalid credentials");
  logout_answer := Ok ();
  put_answer :=
    Ok {| data := VObj [("id", VStr "e1"); ("status", VStr "cancelled")] |}
|}.

Definition browser (token : option string) (cache : gmap string string)
  (script : Script) : Env Script :=
  {| token_store := token; local_storage := cache;
     quota_exceeded := false; backend := script |}.

(** A page load with a stored token and, possibly, a cached profile. *)
Definition page_load (cache : gmap string string) (script : Script)
  : World Script :=
  initial (browser (Some "tok") cache script).

(** A signed-in session. *)
Definition signed_in (script : Script) : World Script :=
  {| user := Some alice; isLoading := false; error := None;
     env := browser (Some "tok") {["auth_user" := alice_json]} script;
     trace := [] |}.

(** ** Registration: [signup] and [verifyEmail] of [AuthProvider] *)

(** The two further exports of [lib/api/auth] the context calls. *)
Class RegistrationApi (B : Type) : Type := {
  signupUser : Value → Api B string;
  verifyEmailApi : string → string → Api B AuthResponse
}.

(** [err instanceof ApiError ? err.message : fallback] *)
Definition error_message (err : Error) (fallback : string) : string :=
  if instanceof_ApiError err then message err else fallback.

Section Registration.
Context {B : Type} `{!RegistrationApi B}.

Definition signup (userData : Value) : M B string :=
  try_finally
    (try_catch
       (setError None;;
        setIsLoading true;;
        regId ← lift (signupUser userData);
        mret regId)
       (λ err,
          let errorMessage := error_message err "Signup failed" in
          setError (Some errorMessage);;
          throw err))
    (setIsLoading false).

Definition verifyEmail (code regId : string) : M B unit :=
  try_finally
    (try_catch
       (setError None;;
        setIsLoading true;;
        response ← lift (verifyEmailApi code regId);
        setUser (Some (resp_user response)))
       (λ err,
          let errorMessage := error_message err "Email verification failed" in
          setError (Some errorMessage);;
          throw err))
    (setIsLoading false).

End Registration.

(** ** Further observations *)

(** The tokens [validateToken] was called with, in order. *)
Definition validated (tr : list Call) : list string :=
  omap (λ c, match c with CValidateToken t => Some t | _ => None end) tr.

(** The number of [tokenManager.remove()] calls. *)
Definition removals (tr : list Call) : nat :=
  length (omap (λ c, match c with CTokenRemove => Some () | _ => None end) tr).

Section Hydration.
Context {B : Type} `{!Json}.

(** The user after the first inner [try] of [checkAuth]: the parsed cache
    entry when there is one that parses, the user as it was otherwise. *)
Definition user_after_hydration (w : World B) : option User :=
  match local_storage (env w) !! "auth_user" with
  | Some storedUser =>
      if truthy storedUser then
        match JSON_parse storedUser with
        | Ok parsed => parsed
        | Throw _ => user w
        end
      else user w
  | None => user w
  end.

End Hydration.

(** A registration backend for the scenarios: one code is right. *)
#[global] Instance scripted_registration : RegistrationApi Script := {|
  signupUser userData e :=
    match userData with
    | VObj _ => (Ok "reg-1", e)
    | _ => (Throw (ApiError "Invalid signup data"), e)
    end;
  verifyEmailApi code regId e :=
    if decide (code = "123456")
    then (Ok {| resp_user := alice |}, tokenManager.set "fresh" e)
    else (Throw (ApiError "Invalid code"), e)
|}.

(** The stored token is valid. *)
Definition healthy : Script := {|
  validate_answer token :=
    if decide (token = "tok") then Ok (Some alice) else Ok None;
  refresh_answer := Ok "fresh";
  login_answer _ _ := Ok {| resp_user := alice |};
  logout_answer := Ok ();
  put_answer := Ok {| data := VNull |}
|}.

(** The stored token has expired; the refresh endpoint issues [fresh]. *)
Definition rotating : Script := {|
  validate_answer token :=
    if decide (token = "fresh") then Ok (Some alice) else Ok None;
  refresh_answer := Ok "fresh";
  login_answer _ _ := Ok {| resp_user := alice |};
  logout_answer := Ok ();
  put_answer := Ok {| data := VNull |}
|}.

(** The refresh endpoint answers, but with an empty token. *)
Definition forgetful : Script := {|
  validate_answer _ := Ok None;
  refresh_answer := Ok "";
  login_answer _ _ := Ok {| resp_user := alice |};
  logout_answer := Ok ();
  put_answer := Ok {| data := VNull |}
|}.

Open Scope list_scope.

(** * Pages, components and the remaining API wrappers *)

(** ** More of JavaScript *)

(** [v === undefined || v === null] *)
Definition nullish (v : Value) : bool :=
  match v with
  | VUndefined | VNull => true
  | _ => false
  end.

(** ToBoolean on values. *)
Definition truthy_value (v : Value) : bool :=
  match v with
  | VUndefined | VNull => false
  | VBool b => b
  | VNum n => bool_decide (n ≠ 0%Z)
  | VStr s => truthy s
  | VArr _ | VObj _ => true
  end.

(** [v.k], for a property name [k] that no built-in prototype defines
    ([data], [event], ...): reading it off [undefined] or [null] raises, an
    object answers with its own property, anything else with
    [undefined]. *)
Definition prop (v : Value) (k : string) : Res Value :=
  match v with
  | VUndefined =>
      Throw (TypeError ("Cannot read properties of undefined (reading '"
                        +:+ k +:+ "')"))
  | VNull =>
      Throw (TypeError ("Cannot read properties of null (reading '"
                        +:+ k +:+ "')"))
  | VObj o => Ok (default VUndefined (obj_get o k))
  | _ => Ok VUndefined
  end.

(** [v?.k] *)
Definition opt_prop (v : Value) (k : string) : Value :=
  match prop v k with
  | Ok x => x
  | Throw _ => VUndefined
  end.

(** [a ?? b] *)
Definition coalesce (a b : Value) : Value := if nullish a then b else a.

(** The property name is written with decimal digits only.  Among these
    are all the names JavaScript lists ahead of the others, in ascending
    numeric order, whatever the order of insertion; the own properties with
    other names are kept in the order of insertion, as [Obj] keeps them. *)
Definition integer_like (k : string) : bool :=
  negb (bool_decide (k = "")) &&
  forallb (λ c, (48 <=? Ascii.nat_of_ascii c)%nat
                && (Ascii.nat_of_ascii c <=? 57)%nat)
          (String.list_ascii_of_string k).

(** [Array.prototype.filter] with a callback that may throw. *)
Fixpoint Array_filter {A : Type} (f : A → Res bool) (l : list A)
  : Res (list A) :=
  match l with
  | [] => Ok []
  | x :: l' =>
      match f x with
      | Ok keep =>
          match Array_filter f l' with
          | Ok rest => Ok (if keep then x :: rest else rest)
          | Throw err => Throw err
          end
      | Throw err => Throw err
      end
  end.

(** Built-ins the code calls and the model leaves abstract:
    [Number.prototype.toString] on the integers the forms hold,
    [String.prototype.trim], the serialiser of [URLSearchParams],
    [type.match(pattern)] (which raises on a malformed pattern), and whether
    the [ApiError] class of [lib/utils/api] extends [Error]. *)
Class Builtins : Type := {
  Number_toString : Z → string;
  String_trim : string → string;
  urlencode : string → string;
  String_match : string → string → Res bool;
  ApiError_extends_Error : bool
}.

(** [err instanceof Error]: [TypeError]s and plain [Error]s are. *)
Definition instanceof_Error `{!Builtins} (err : Error) : bool :=
  match err with
  | ApiError _ => ApiError_extends_Error
  | TypeError _ | OtherError _ => true
  end.

(** [err instanceof Error ? err.message : fallback] *)
Definition error_text `{!Builtins} (err : Error) (fallback : string)
  : string :=
  if instanceof_Error err then message err else fallback.

(** ** Files and multipart forms *)

Record File : Type := {
  file_name : string;
  file_size : Z;
  file_type : string
}.

Inductive FormValue : Type :=
| FText (text : string)
| FFile (file : File).

(** A [FormData]: its entries in the order of the [append] calls. *)
Definition FormData : Type := list (string * FormValue).

(** ** Effects of the pages *)

Inductive Effect : Type :=
| EGet (url : string) (headers : Headers)
| EPost (url : string) (body : Value) (headers : Headers)
| EPatch (url : string) (body : Value) (headers : Headers)
| EDelete (url : string) (headers : Headers)
| EPostForm (url : string) (form : FormData) (headers : Headers)
| EPutForm (url : string) (form : FormData) (headers : Headers)
| EToastSuccess (text : string)
| EToastError (text : string)
| EConfirm (text : string)
| EAlert (text : string)
| EPush (url : string)
| EConsoleError (text : string)
| EFilesChange (files : list File).

(** Is the effect a request to the backend? *)
Definition is_request (eff : Effect) : bool :=
  match eff with
  | EGet _ _ | EPost _ _ _ | EPatch _ _ _ | EDelete _ _
  | EPostForm _ _ _ | EPutForm _ _ _ => true
  | _ => false
  end.

(** A component at work: its own state cells [view], the authentication
    context and environment [world], the answers the user is going to give
    to [confirm] dialogs, and the effects so far, oldest first. *)
Record Sys (B S : Type) : Type := {
  view : S;
  world : World B;
  answers : list bool;
  effects : list Effect
}.
Arguments view {B S} _.
Arguments world {B S} _.
Arguments answers {B S} _.
Arguments effects {B S} _.

Definition Act (B S A : Type) : Type := Sys B S → Res A * Sys B S.

#[global] Instance Act_ret {B S} : MRet (Act B S) := λ A a s, (Ok a, s).

#[global] Instance Act_bind {B S} : MBind (Act B S) := λ A1 A2 k m s,
  match m s with
  | (Ok a, s') => k a s'
  | (Throw err, s') => (Throw err, s')
  end.

Definition raise {B S A} (err : Error) : Act B S A := λ s, (Throw err, s).

Definition of_res {B S A} (r : Res A) : Act B S A := λ s, (r, s).

(** [try { body } catch (err) { handler }] *)
Definition catch_ {B S A} (body : Act B S A) (handler : Error → Act B S A)
  : Act B S A :=
  λ s,
    match body s with
    | (Ok a, s') => (Ok a, s')
    | (Throw err, s') => handler err s'
    end.

(** [try { body } finally { final }] *)
Definition finally_ {B S A} (body : Act B S A) (final : Act B S unit)
  : Act B S A :=
  λ s,
    match body s with
    | (r, s') =>
        match final s' with
        | (Ok _, s'') => (r, s'')
        | (Throw err, s'') => (Throw err, s'')
        end
    end.

Definition effect {B S} (eff : Effect) : Act B S unit := λ s,
  (Ok (),
   {| view := view s; world := world s; answers := answers s;
      effects := effects s ++ [eff] |}).

(** Run a computation of the authentication layer. *)
Definition in_world {B S A} (m : M B A) : Act B S A := λ s,
  match m (world s) with
  | (r, w') =>
      (r, {| view := view s; world := w'; answers := answers s;
             effects := effects s |})
  end.

(** Perform a request: record it, then let the backend answer. *)
Definition request {B S A} (eff : Effect) (f : Api B A) : Act B S A :=
  effect eff;; in_world (lift f).

Definition get_view {B S} : Act B S S := λ s, (Ok (view s), s).

Definition set_view {B S} (v : S) : Act B S unit := λ s,
  (Ok (),
   {| view := v; world := world s; answers := answers s;
      effects := effects s |}).

(** [window.confirm(text)]: the user's next answer; a dialog nobody
    answers counts as dismissed. *)
Definition confirm {B S} (text : string) : Act B S bool := λ s,
  (Ok (default false (head (answers s))),
   {| view := view s; world := world s; answers := tail (answers s);
      effects := effects s ++ [EConfirm text] |}).

(** The effects performed between [s] and a later [s']. *)
Definition new_effects {B S} (s s' : Sys B S) : list Effect :=
  drop (length (effects s)) (effects s').

(** The requests among them. *)
Definition requests (effs : list Effect) : list Effect :=
  filter (λ eff, is_request eff) effs.

(** The remaining verbs of [lib/utils/api]. *)
Class RestApi (B : Type) : Type := {
  apiGet : string → Headers → Api B Value;
  apiPost : string → Value → Headers → Api B Value;
  apiPatch : string → Value → Headers → Api B Value;
  apiDelete : string → Headers → Api B Value;
  apiPostForm : string → FormData → Headers → Api B Value;
  apiPutForm : string → FormData → Headers → Api B Value
}.

(** ** [lib/api/events.ts] and [lib/api/users.ts] *)

(** [CreateEventFormData] *)
Record CreateEventFormData : Type := {
  cf_title : string;
  cf_description : string;
  cf_date : string;
  cf_time : string;
  cf_venue : string;
  cf_capacity : Z;
  cf_max_participants : Z;
  cf_category_id : string;
  cf_featured_image : option File;
  cf_gallery_images : option (list File)
}.

(** [UpdateEventFormData]: every field optional. *)
Record UpdateEventFormData : Type := {
  uf_title : option string;
  uf_description : option string;
  uf_date : option string;
  uf_time : option string;
  uf_venue : option string;
  uf_capacity : option Z;
  uf_max_participants : option Z;
  uf_category_id : option string;
  uf_featured_image : option File;
  uf_gallery_images : option (list File);
  uf_status : option string;
  uf_is_published : option bool
}.

(** The [params] of [getEvents]. *)
Record EventsParams : Type := {
  ep_page : option Z;
  ep_per_page : option Z;
  ep_status : option string;
  ep_organizer_id : option string;
  ep_search : option string
}.

(** The [params] of [getUsers]. *)
Record UsersParams : Type := {
  up_page : option Z;
  up_per_page : option Z;
  up_role_filter : option string;
  up_status_filter : option string;
  up_search : option string
}.

(** ToBoolean on [number | undefined] for integers. *)
Definition truthy_num (n : option Z) : bool :=
  match n with
  | Some n => bool_decide (n ≠ 0%Z)
  | None => false
  end.

(** [if (x) queryParams.append(name, x.toString())] for a number and
    [if (x) queryParams.append(name, x)] for a string. *)
Definition append_num `{!Builtins} (name : string) (n : option Z)
  (q : list (string * string)) : list (string * string) :=
  match n with
  | Some n => if bool_decide (n ≠ 0%Z) then q ++ [(name, Number_toString n)]
              else q
  | None => q
  end.

Definition append_str (name : string) (s : option string)
  (q : list (string * string)) : list (string * string) :=
  match s with
  | Some s => if truthy s then q ++ [(name, s)] else q
  | None => q
  end.

(** [URLSearchParams.prototype.toString] *)
Definition URLSearchParams_toString `{!Builtins} (q : list (string * string))
  : string :=
  String.concat "&" (map (λ kv, urlencode kv.1 +:+ "=" +:+ urlencode kv.2) q).

(** [`${base}${queryString ? `?${queryString}` : ''}`] *)
Definition with_query (base queryString : string) : string :=
  base +:+ (if truthy queryString then "?" +:+ queryString else "").

(** [`/api/v1/admin/events/${eventId}`], as in [updateEvent]. *)
Definition events_url : string := "/api/v1/admin/events".
Definition users_url : string := "/api/v1/admin/users".

(** [r?.data?.event ?? r?.data ?? r?.event ?? r] *)
Definition unwrap_event (r : Value) : Value :=
  coalesce
    (coalesce
       (coalesce (opt_prop (opt_prop r "data") "event") (opt_prop r "data"))
       (opt_prop r "event"))
    r.

Section EventsApi.
Context {B S : Type} `{!Builtins} `{!RestApi B}.

Definition getAuthHeader : Act B S Headers :=
  in_world tokenManager_getAuthHeader.

Definition createEvent (eventData : Value) : Act B S Value :=
  headers ← getAuthHeader;
  response ← request (EPost events_url eventData headers)
                     (apiPost events_url eventData headers);
  of_res (prop response "data").

(** The [FormData] that [createEventWithFiles] fills. *)
Definition create_form (eventData : CreateEventFormData) : FormData :=
  let formData : FormData :=
    [ ("title", FText (cf_title eventData));
      ("description", FText (cf_description eventData));
      ("date", FText (cf_date eventData));
      ("time", FText (cf_time eventData));
      ("venue", FText (cf_venue eventData));
      ("capacity", FText (Number_toString (cf_capacity eventData)));
      ("max_participants",
       FText (Number_toString (cf_max_participants eventData)));
      ("category_id", FText (cf_category_id eventData)) ] in
  let formData :=
    match cf_featured_image eventData with
    | Some file => formData ++ [("featured_image", FFile file)]
    | None => formData
    end in
  match cf_gallery_images eventData with
  | Some files => formData ++ map (λ file, ("gallery_images[]", FFile file)) files
  | None => formData
  end.

Definition createEventWithFiles (eventData : CreateEventFormData)
  : Act B S Value :=
  let formData := create_form eventData in
  headers ← getAuthHeader;
  result ← request (EPostForm events_url formData headers)
                   (apiPostForm events_url formData headers);
  mret (unwrap_event result).

(** The query of [getEvents]. *)
Definition events_query (params : option EventsParams)
  : list (string * string) :=
  let queryParams := [] in
  let queryParams := append_num "page" (params ≫= ep_page) queryParams in
  let queryParams :=
    append_num "per_page" (params ≫= ep_per_page) queryParams in
  let queryParams := append_str "status" (params ≫= ep_status) queryParams in
  let queryParams :=
    append_str "organizer_id" (params ≫= ep_organizer_id) queryParams in
  append_str "search" (params ≫= ep_search) queryParams.

Definition getEvents (params : option EventsParams) : Act B S Value :=
  let queryString := URLSearchParams_toString (events_query params) in
  let url := with_query events_url queryString in
  headers ← getAuthHeader;
  response ← request (EGet url headers) (apiGet url headers);
  of_res (prop response "data").

Definition getEventDetails (eventId : string) : Act B S Value :=
  headers ← getAuthHeader;
  response ← request (EGet (event_url eventId) headers)
                     (apiGet (event_url eventId) headers);
  data ← of_res (prop response "data");
  of_res (prop data "event").

Definition append_text (name : string) (s : option string) (f : FormData)
  : FormData :=
  match s with
  | Some s => f ++ [(name, FText s)]
  | None => f
  end.

(** The [FormData] that [updateEventWithFiles] fills. *)
Definition update_form (eventData : UpdateEventFormData) : FormData :=
  let formData := [] in
  let formData := append_text "title" (uf_title eventData) formData in
  let formData :=
    append_text "description" (uf_description eventData) formData in
  let formData := append_text "date" (uf_date eventData) formData in
  let formData := append_text "time" (uf_time eventData) formData in
  let formData := append_text "venue" (uf_venue eventData) formData in
  let formData :=
    append_text "capacity" (Number_toString <$> uf_capacity eventData)
      formData in
  let formData :=
    append_text "max_participants"
      (Number_toString <$> uf_max_participants eventData) formData in
  let formData :=
    append_text "category_id" (uf_category_id eventData) formData in
  let formData :=
    match uf_featured_image eventData with
    | Some file => formData ++ [("featured_image", FFile file)]
    | None => formData
    end in
  match uf_gallery_images eventData with
  | Some files => formData ++ map (λ file, ("gallery_images[]", FFile file)) files
  | None => formData
  end.

Definition updateEventWithFiles (eventId : string)
    (eventData : UpdateEventFormData) : Act B S Value :=
  let formData := update_form eventData in
  headers ← getAuthHeader;
  result ← request (EPutForm (event_url eventId) formData headers)
                   (apiPutForm (event_url eventId) formData headers);
  mret (unwrap_event result).

Definition deleteEvent (eventId : string) : Act B S unit :=
  headers ← getAuthHeader;
  request (EDelete (event_url eventId) headers)
          (apiDelete (event_url eventId) headers);;
  mret ().

Definition approveEvent (eventId : string) : Act B S unit :=
  headers ← getAuthHeader;
  request (EPost (event_url eventId +:+ "/approve") VUndefined headers)
          (apiPost (event_url eventId +:+ "/approve") VUndefined headers);;
  mret ().

Definition publishEvent (eventId : string) : Act B S unit :=
  headers ← getAuthHeader;
  request (EPost (event_url eventId +:+ "/publish") VUndefined headers)
          (apiPost (event_url eventId +:+ "/publish") VUndefined headers);;
  mret ().

Definition getEventStats : Act B S Value :=
  headers ← getAuthHeader;
  response ← request (EGet (events_url +:+ "/stats") headers)
                     (apiGet (events_url +:+ "/stats") headers);
  of_res (prop response "data").

(** The query of [getUsers]. *)
Definition users_query (params : option UsersParams)
  : list (string * string) :=
  let queryParams := [] in
  let queryParams := append_num "page" (params ≫= up_page) queryParams in
  let queryParams :=
    append_num "per_page" (params ≫= up_per_page) queryParams in
  let queryParams :=
    append_str "role_filter" (params ≫= up_role_filter) queryParams in
  let queryParams :=
    append_str "status_filter" (params ≫= up_status_filter) queryParams in
  append_str "search" (params ≫= up_search) queryParams.

Definition getUsers (params : option UsersParams) : Act B S Value :=
  let queryString := URLSearchParams_toString (users_query params) in
  let url := with_query users_url queryString in
  headers ← getAuthHeader;
  response ← request (EGet url headers) (apiGet url headers);
  of_res (prop response "data").

End EventsApi.

(** ** [showToast], [router], [console] *)

Definition showToast_success {B S} (text : string) : Act B S unit :=
  effect (EToastSuccess text).
Definition showToast_error {B S} (text : string) : Act B S unit :=
  effect (EToastError text).
Definition router_push {B S} (url : string) : Act B S unit :=
  effect (EPush url).
Definition console_error {B S} (text : string) : Act B S unit :=
  effect (EConsoleError text).
Definition alert {B S} (text : string) : Act B S unit :=
  effect (EAlert text).

(** [if (!ok) throw new Error(text)] *)
Definition require {B S} (ok : bool) (text : string) : Act B S unit :=
  if ok then mret () else raise (OtherError text).

(** ** [CreateEventPage] *)

Section CreateEventPage.
Context {B : Type} `{!Builtins} `{!RestApi B}.

(** The page's [loading] cell is the view. *)
Definition setLoading (loading : bool) : Act B bool unit := set_view loading.

(** The "basic validation" of [handleSubmit]. *)
Definition validate_form (formData : CreateEventFormData) : Act B bool unit :=
  require (truthy (String_trim (cf_title formData))) "Title is required";;
  require (truthy (String_trim (cf_description formData)))
    "Description is required";;
  require (truthy (cf_date formData)) "Date is required";;
  require (truthy (cf_time formData)) "Time is required";;
  require (truthy (String_trim (cf_venue formData))) "Venue is required";;
  require (negb (bool_decide (cf_capacity formData ≤ 0)%Z))
    "Capacity must be greater than 0";;
  require (negb (bool_decide (cf_max_participants formData ≤ 0)%Z))
    "Max participants must be greater than 0";;
  require (negb (bool_decide
                   (cf_max_participants formData > cf_capacity formData)%Z))
    "Max participants cannot exceed capacity".

Definition handleSubmit (formData : CreateEventFormData) : Act B bool unit :=
  finally_
    (catch_
       (setLoading true;;
        validate_form formData;;
        createEventWithFiles formData;;
        showToast_success "Event created successfully!";;
        router_push "/events")
       (λ err,
          let errorMessage := error_text err "Failed to create event" in
          showToast_error errorMessage))
    (setLoading false).

End CreateEventPage.

(** What [handleSubmit] demands of a form before it sends anything. *)
Definition form_valid `{!Builtins} (formData : CreateEventFormData) : Prop :=
  truthy (String_trim (cf_title formData)) = true ∧
  truthy (String_trim (cf_description formData)) = true ∧
  truthy (cf_date formData) = true ∧
  truthy (cf_time formData) = true ∧
  truthy (String_trim (cf_venue formData)) = true ∧
  (0 < cf_max_participants formData ≤ cf_capacity formData)%Z.

(** ** [EventDetailsPage] *)

Record EventDetails : Type := {
  ed_event : option Obj;
  ed_loading : bool;
  ed_error : option string;
  ed_actionLoading : bool
}.

(** ToString, as a template literal applies it to a value of the model: a
    primitive prints as JavaScript prints it, an array as its elements
    joined by commas ([null] and [undefined] as the empty string), a plain
    object as [[object Object]]; an object with an own [toString] property
    (never a function, in these values) cannot be converted. *)
Fixpoint ToString `{!Builtins} (v : Value) : Res string :=
  match v with
  | VUndefined => Ok "undefined"
  | VNull => Ok "null"
  | VBool b => Ok (if b then "true" else "false")
  | VNum n => Ok (Number_toString n)
  | VStr s => Ok s
  | VArr elems =>
      let fix join (l : list Value) : Res (list string) :=
        match l with
        | [] => Ok []
        | x :: l' =>
            match (if nullish x then Ok "" else ToString x) with
            | Ok text =>
                match join l' with
                | Ok texts => Ok (text :: texts)
                | Throw err => Throw err
                end
            | Throw err => Throw err
            end
        end in
      match join elems with
      | Ok texts => Ok (String.concat "," texts)
      | Throw err => Throw err
      end
  | VObj props =>
      if bool_decide ("toString" ∈ keys props)
      then Throw (TypeError "Cannot convert object to primitive value")
      else Ok "[object Object]"
  end.

(** [event.id]: whatever the loaded record holds under [id]. *)
Definition event_id (event : Obj) : Value :=
  default VUndefined (obj_get event "id").

(** [`.../${event.id}...`]: the wrappers of [lib/api/events] use the id
    they are given in a template literal, before anything else. *)
Definition id_text `{!Builtins} {B S} (event : Obj) : Act B S string :=
  of_res (ToString (event_id event)).

Definition decline_question : string :=
  "Are you sure you want to decline this event? This action cannot be undone.".
Definition delete_question : string :=
  "Are you sure you want to delete this event? This action cannot be undone.".

Section EventDetailsPage.
Context {B : Type} `{!Builtins} `{!RestApi B} `{!HttpApi B}.

Definition setEvent (event : option Obj) : Act B EventDetails unit :=
  v ← get_view;
  set_view {| ed_event := event; ed_loading := ed_loading v;
              ed_error := ed_error v;
              ed_actionLoading := ed_actionLoading v |}.

Definition setActionLoading (loading : bool) : Act B EventDetails unit :=
  v ← get_view;
  set_view {| ed_event := ed_event v; ed_loading := ed_loading v;
              ed_error := ed_error v;
              ed_actionLoading := loading |}.

Definition handleApproveEvent : Act B EventDetails unit :=
  v ← get_view;
  match ed_event v with
  | None => mret ()
  | Some event =>
      finally_
        (catch_
           (setActionLoading true;;
            eventId ← id_text event;
            approveEvent eventId;;
            setEvent (Some (spread event [("status", VStr "approved")]));;
            showToast_success "Event approved successfully")
           (λ err,
              let errorMessage := error_text err "Failed to approve event" in
              console_error "Approve event error:";;
              showToast_error errorMessage))
        (setActionLoading false)
  end.

Definition handleDeclineEvent : Act B EventDetails unit :=
  v ← get_view;
  match ed_event v with
  | None => mret ()
  | Some event =>
      confirmed ← confirm decline_question;
      if negb confirmed then (mret () : Act B EventDetails unit)
      else
        finally_
          (catch_
             (setActionLoading true;;
              eventId ← id_text event;
              in_world (declineEvent eventId);;
              setEvent (Some (spread event [("status", VStr "cancelled")]));;
              showToast_success "Event declined successfully")
             (λ err,
                let errorMessage := error_text err "Failed to decline event" in
                console_error "Decline event error:";;
                showToast_error errorMessage))
          (setActionLoading false)
  end.

Definition handlePublishToggle : Act B EventDetails unit :=
  v ← get_view;
  match ed_event v with
  | None => mret ()
  | Some event =>
      let is_published := default VUndefined (obj_get event "is_published") in
      finally_
        (catch_
           (setActionLoading true;;
            eventId ← id_text event;
            publishEvent eventId;;
            setEvent
              (Some (spread event
                       [("is_published",
                         VBool (negb (truthy_value
                                        (coalesce is_published
                                                  (VBool false)))))]));;
            showToast_success
              ("Event " +:+
               (if negb (truthy_value is_published) then "published"
                else "unpublished") +:+ " successfully"))
           (λ err,
              let errorMessage :=
                error_text err "Failed to update publish status" in
              console_error "Publish event error:";;
              showToast_error errorMessage))
        (setActionLoading false)
  end.

Definition handleDeleteEvent : Act B EventDetails unit :=
  v ← get_view;
  match ed_event v with
  | None => mret ()
  | Some event =>
      confirmed ← confirm delete_question;
      if negb confirmed then (mret () : Act B EventDetails unit)
      else
        finally_
          (catch_
             (setActionLoading true;;
              eventId ← id_text event;
              deleteEvent eventId;;
              showToast_success "Event deleted successfully";;
              router_push "/events")
             (λ err,
                let errorMessage := error_text err "Failed to delete event" in
                console_error "Delete event error:";;
                showToast_error errorMessage))
          (setActionLoading false)
  end.

End EventDetailsPage.

(** ** [EventsPage]: the parameters [loadEvents] passes to [getEvents] *)

(** [s || undefined] *)
Definition or_undefined (s : string) : option string :=
  if truthy s then Some s else None.

Definition loadEvents_params (currentPage : Z) (searchTerm statusFilter : string)
  : EventsParams :=
  {| ep_page := Some currentPage;
     ep_per_page := Some 20%Z;
     ep_status :=
       if bool_decide (statusFilter = "all") then None
       else or_undefined statusFilter;
     ep_organizer_id := None;
     ep_search := or_undefined searchTerm |}.

(** ** Observations on forms and queries *)

(** The files of a form, in order. *)
Definition form_files (form : FormData) : list File :=
  omap (λ entry, match entry.2 with FFile file => Some file | _ => None end)
       form.

(** The text values a form holds under [name], in order. *)
Definition form_texts (name : string) (form : FormData) : list string :=
  omap (λ entry,
          if decide (entry.1 = name) then
            match entry.2 with FText text => Some text | _ => None end
          else None)
       form.

(** A list with the element when the flag is set. *)
Definition when {A} (b : bool) (x : A) : list A := if b then [x] else [].

(** The messages of the "basic validation" of [handleSubmit]. *)
Definition validation_messages : list string :=
  [ "Title is required"; "Description is required"; "Date is required";
    "Time is required"; "Venue is required";
    "Capacity must be greater than 0";
    "Max participants must be greater than 0";
    "Max participants cannot exceed capacity" ].

(** ** [DashSidebar] *)

Record SubItem : Type := { sub_title : string; sub_url : string }.

(** An entry of [data.navMain], [data.navContents] or [data.navUtils]
    (the icon left out). *)
Record NavItem : Type := {
  nav_title : string;
  nav_url : string;
  nav_items : option (list SubItem)
}.

Definition navMain : list NavItem :=
  [ {| nav_title := "Dashboard"; nav_url := "/"; nav_items := None |} ].

Definition navContents : list NavItem :=
  [ {| nav_title := "Events"; nav_url := "/events";
       nav_items := Some
         [ {| sub_title := "All Events"; sub_url := "/events" |};
           {| sub_title := "Add new"; sub_url := "/events/create" |};
           {| sub_title := "Categories"; sub_url := "/events/categories" |} ]
    |};
    {| nav_title := "Users"; nav_url := "/users";
       nav_items := Some
         [ {| sub_title := "All Users"; sub_url := "/users" |};
           {| sub_title := "Add new"; sub_url := "/users/new" |} ] |};
    {| nav_title := "Feedbacks"; nav_url := "/feedbacks";
       nav_items := Some
         [ {| sub_title := "All Feedbacks"; sub_url := "/feedbacks" |} ] |} ].

Definition navUtils : list NavItem :=
  [ {| nav_title := "Settings"; nav_url := "/settings"; nav_items := None |} ].

(** The same entries with their [isActive] flags. *)
Record SubEntry : Type := {
  se_title : string;
  se_url : string;
  se_isActive : bool
}.

Record NavEntry : Type := {
  ne_title : string;
  ne_url : string;
  ne_isActive : bool;
  ne_items : option (list SubEntry)
}.

Record NavGroups : Type := {
  g_navMain : list NavEntry;
  g_navContents : list NavEntry;
  g_navUtils : list NavEntry
}.

(** [isActive(url, subItems)] for the current [pathname]. *)
Definition isActive (pathname url : string) (subItems : option (list SubItem))
  : bool :=
  if bool_decide (pathname = url) then true
  else
    match subItems with
    | Some subItems =>
        existsb (λ subItem, bool_decide (pathname = sub_url subItem)) subItems
    | None =>
        if bool_decide (url ≠ "/") && String.prefix url pathname then true
        else false
    end.

(** The callbacks of the two [filter] calls. *)
Definition content_visible (userRoles : list string) (item : NavItem)
  : Res bool :=
  if bool_decide (nav_title item = "Events") then
    hasPermission userRoles PERMISSIONS.VIEW_ALL_EVENTS
  else if bool_decide (nav_title item = "Users") then
    hasPermission userRoles PERMISSIONS.MANAGE_USERS
  else if bool_decide (nav_title item = "Feedbacks") then
    hasPermission userRoles PERMISSIONS.VIEW_ALL_EVENTS
  else Ok false.

Definition util_visible (userRoles : list string) (item : NavItem)
  : Res bool :=
  if bool_decide (nav_title item = "Settings") then
    hasPermission userRoles PERMISSIONS.SYSTEM_SETTINGS
  else Ok false.

(** [{ ...item, isActive: isActive(item.url) }] *)
Definition plain_entry (pathname : string) (item : NavItem) : NavEntry :=
  {| ne_title := nav_title item; ne_url := nav_url item;
     ne_isActive := isActive pathname (nav_url item) None;
     ne_items :=
       (λ subItems,
          map (λ subItem,
                 {| se_title := sub_title subItem; se_url := sub_url subItem;
                    se_isActive := false |}) subItems) <$> nav_items item |}.

(** [{ ...item, isActive: isActive(item.url, item.items), items: ... }] *)
Definition content_entry (pathname : string) (item : NavItem) : NavEntry :=
  {| ne_title := nav_title item; ne_url := nav_url item;
     ne_isActive := isActive pathname (nav_url item) (nav_items item);
     ne_items :=
       (λ subItems,
          map (λ subItem,
                 {| se_title := sub_title subItem; se_url := sub_url subItem;
                    se_isActive := bool_decide (pathname = sub_url subItem) |})
              subItems) <$> nav_items item |}.

(** [getFilteredNavItems()], for the current [pathname] and [user?.roles]. *)
Definition getFilteredNavItems (pathname : string)
    (roles : option (list string)) : Res NavGroups :=
  match roles with
  | None => Ok {| g_navMain := []; g_navContents := []; g_navUtils := [] |}
  | Some userRoles =>
      let navMainWithActive := map (plain_entry pathname) navMain in
      match Array_filter (content_visible userRoles) navContents with
      | Throw err => Throw err
      | Ok navContentsFiltered =>
          let navContentsWithActive :=
            map (content_entry pathname) navContentsFiltered in
          match Array_filter (util_visible userRoles) navUtils with
          | Throw err => Throw err
          | Ok navUtilsFiltered =>
              let navUtilsWithActive :=
                map (plain_entry pathname) navUtilsFiltered in
              Ok {| g_navMain := navMainWithActive;
                    g_navContents := navContentsWithActive;
                    g_navUtils := navUtilsWithActive |}
          end
      end
  end.

(** The titles shown in a group. *)
Definition titles (entries : list NavEntry) : list string :=
  map ne_title entries.

(** ** [FileUpload] *)

(** The props the handlers read; [maxSize] is in megabytes. *)
Record UploadProps : Type := {
  accept : string;
  multiple : bool;
  maxSize : Z;
  files : list File;
  disabled : bool
}.

(** [accept.replace(/\*/g, ".*")] *)
Fixpoint replace_stars (accept : string) : string :=
  match accept with
  | EmptyString => EmptyString
  | String c rest =>
      if bool_decide (String c EmptyString = "*")
      then "." +:+ "*" +:+ replace_stars rest
      else String c (replace_stars rest)
  end.

(** The double-quote character of the alert texts. *)
Definition dquote : string := String (Ascii.ascii_of_nat 34) EmptyString.

(** [`File "${file.name}" is too large. Maximum size is ${maxSize}MB.`] *)
Definition too_large_text `{!Builtins} (props : UploadProps) (file : File)
  : string :=
  "File " +:+ dquote +:+ file_name file +:+ dquote
  +:+ " is too large. Maximum size is "
  +:+ Number_toString (maxSize props) +:+ "MB.".

(** [`File "${file.name}" is not a supported format.`] *)
Definition bad_format_text (file : File) : string :=
  "File " +:+ dquote +:+ file_name file +:+ dquote
  +:+ " is not a supported format.".

Section FileUpload.
Context {B S : Type} `{!Builtins}.

(** The body of the [forEach] callback of [handleFileSelect]: [Some file]
    when the file is pushed onto [validFiles]. *)
Definition check_file (props : UploadProps) (file : File)
  : Act B S (option File) :=
  if bool_decide (file_size file > maxSize props * 1024 * 1024)%Z then
    alert (too_large_text props file);;
    mret None
  else if bool_decide (accept props ≠ "*") then
    matched ← of_res (String_match (file_type file)
                                    (replace_stars (accept props)));
    if negb matched then
      alert (bad_format_text file);;
      mret None
    else mret (Some file)
  else mret (Some file).

(** [fileArray.forEach(...)], collecting [validFiles]. *)
Fixpoint check_files (props : UploadProps) (fileArray : list File)
  : Act B S (list File) :=
  match fileArray with
  | [] => mret []
  | file :: rest =>
      checked ← check_file props file;
      validFiles ← check_files props rest;
      mret (option_list checked ++ validFiles)
  end.

Definition onFilesChange (newFiles : list File) : Act B S unit :=
  effect (EFilesChange newFiles).

Definition handleFileSelect (props : UploadProps)
    (selectedFiles : option (list File)) : Act B S unit :=
  match selectedFiles with
  | None => mret ()
  | Some fileArray =>
      validFiles ← check_files props fileArray;
      if multiple props then onFilesChange (files props ++ validFiles)
      else onFilesChange (take 1 validFiles)
  end.

(** [files.filter((_, i) => i !== index)] *)
Definition without_index (index : nat) (l : list File) : list File :=
  omap id (imap (λ i file, if bool_decide (i ≠ index) then Some file
                           else None) l).

Definition removeFile (props : UploadProps) (index : nat) : Act B S unit :=
  let newFiles := without_index index (files props) in
  onFilesChange newFiles.

End FileUpload.

(** [handleDrop]: the view is the [dragActive] cell. *)
Definition handleDrop {B} `{!Builtins} (props : UploadProps)
    (dropped : option (list File)) : Act B bool unit :=
  set_view false;;
  if disabled props then mret ()
  else handleFileSelect props dropped.

(** A file passes the two checks of [handleFileSelect]. *)
Definition acceptable `{!Builtins} (props : UploadProps) (file : File)
  : Prop :=
  (file_size file ≤ maxSize props * 1024 * 1024)%Z ∧
  (accept props ≠ "*" →
   String_match (file_type file) (replace_stars (accept props)) = Ok true).

(** The alerts among some effects. *)
Definition alerts (effs : list Effect) : list string :=
  omap (λ eff, match eff with EAlert text => Some text | _ => None end) effs.

(** What [onFilesChange] was called with. *)
Definition files_changes (effs : list Effect) : list (list File) :=
  omap (λ eff, match eff with EFilesChange l => Some l | _ => None end) effs.

(** The file is pushed onto [validFiles]. *)
Definition passes `{!Builtins} (props : UploadProps) (file : File) : bool :=
  negb (bool_decide (file_size file > maxSize props * 1024 * 1024)%Z) &&
  (negb (bool_decide (accept props ≠ "*")) ||
   match String_match (file_type file) (replace_stars (accept props)) with
   | Ok matched => matched
   | Throw _ => false
   end).

(** The pattern built from [accept] is well-formed for this file: matching
    against it does not raise. *)
Definition matchable `{!Builtins} (props : UploadProps) (file : File)
  : Prop :=
  ∃ matched,
    String_match (file_type file) (replace_stars (accept props)) = Ok matched.

(** The state after some more effects. *)
Definition with_effects {B S} (s : Sys B S) (effs : list Effect) : Sys B S :=
  {| view := view s; world := world s; answers := answers s;
     effects := effects s ++ effs |}.

(** ** Test doubles for the pages *)

(** The ASCII white space [trim] removes. *)
Definition is_space (c : Ascii.ascii) : bool :=
  let n := Ascii.nat_of_ascii c in
  ((9 <=? n) && (n <=? 13) || (n =? 32))%nat.

(** [trimStart] and [trim], on ASCII white space. *)
Fixpoint trim_start (s : string) : string :=
  match s with
  | EmptyString => EmptyString
  | String c rest => if is_space c then trim_start rest else s
  end.

Definition trim (s : string) : string :=
  String.rev (trim_start (String.rev (trim_start s))).

(** The serializer of [URLSearchParams], byte by byte: letters, digits and
    [*-._] stay, a space becomes [+], every other byte is percent-encoded. *)
Definition HEX_digit (n : nat) : string :=
  JSON.char (if n <? 10 then 48 + n else 55 + n)%nat.

Definition form_urlencode_byte (c : Ascii.ascii) : string :=
  let n := Ascii.nat_of_ascii c in
  if ((48 <=? n) && (n <=? 57) || (65 <=? n) && (n <=? 90)
      || (97 <=? n) && (n <=? 122)
      || (n =? 42) || (n =? 45) || (n =? 46) || (n =? 95))%nat
  then String c EmptyString
  else if (n =? 32)%nat then "+"
  else "%" +:+ HEX_digit (n / 16) +:+ HEX_digit (n mod 16).

Fixpoint form_urlencode (s : string) : string :=
  match s with
  | EmptyString => EmptyString
  | String c rest => form_urlencode_byte c +:+ form_urlencode rest
  end.

(** Regular expressions made of characters, [.], and the quantifiers [*],
    [+], [?] (greedy or lazy) on one of these. *)
Inductive Atom : Type :=
| AnyChar
| Literal (c : nat).

Inductive Quantifier : Type :=
| Once | Star | Plus | Optional.

Definition is_quantifier (c : nat) : bool :=
  ((c =? 42) || (c =? 43) || (c =? 63))%nat.

Definition quantifier_of (c : nat) : Quantifier :=
  if (c =? 42)%nat then Star else if (c =? 43)%nat then Plus else Optional.

(** The other characters with a meaning of their own in a pattern:
    [\ ^ $ ( ) [ ] { } |]. *)
Definition is_syntax (c : nat) : bool :=
  ((c =? 92) || (c =? 94) || (c =? 36) || (c =? 40) || (c =? 41)
   || (c =? 91) || (c =? 93) || (c =? 123) || (c =? 125) || (c =? 124))%nat.

(** The pattern as a sequence of quantified atoms; [None] for a quantifier
    with nothing to repeat and for a pattern outside this fragment. *)
Fixpoint parse_pattern (fuel : nat) (p : list nat)
  : option (list (Atom * Quantifier)) :=
  match fuel with
  | O => None
  | S fuel =>
      match p with
      | [] => Some []
      | c :: r =>
          if is_syntax c || is_quantifier c || (128 <=? c)%nat then None
          else
            let atom := if (c =? 46)%nat then AnyChar else Literal c in
            match r with
            | q :: r' =>
                if is_quantifier q then
                  match r' with
                  | lazy :: r'' =>
                      cons (atom, quantifier_of q) <$>
                        parse_pattern fuel
                          (if (lazy =? 63)%nat then r'' else r')
                  | [] => Some [(atom, quantifier_of q)]
                  end
                else cons (atom, Once) <$> parse_pattern fuel r
            | [] => Some [(atom, Once)]
            end
      end
  end.

(** [.] matches any character but a line terminator. *)
Definition accepts (atom : Atom) (c : nat) : bool :=
  match atom with
  | AnyChar => negb ((c =? 10) || (c =? 13))%nat
  | Literal c' => (c =? c')%nat
  end.

(** The pattern matches at the start of the text. *)
Fixpoint match_here (p : list (Atom * Quantifier)) (text : list nat) : bool :=
  match p with
  | [] => true
  | (atom, quantifier) :: p' =>
      let fix repeat (text : list nat) : bool :=
        match_here p' text ||
        match text with
        | c :: text' => accepts atom c && repeat text'
        | [] => false
        end in
      match quantifier with
      | Once =>
          match text with
          | c :: text' => accepts atom c && match_here p' text'
          | [] => false
          end
      | Star => repeat text
      | Plus =>
          match text with
          | c :: text' => accepts atom c && repeat text'
          | [] => false
          end
      | Optional =>
          match_here p' text ||
          match text with
          | c :: text' => accepts atom c && match_here p' text'
          | [] => false
          end
      end
  end.

(** The pattern matches somewhere in the text. *)
Fixpoint search (p : list (Atom * Quantifier)) (text : list nat) : bool :=
  match_here p text ||
  match text with
  | _ :: text' => search p text'
  | [] => false
  end.

(** [text.match(pattern)] succeeds, for ASCII texts and the patterns above;
    a pattern with nothing to repeat raises, and so does, here, whatever is
    outside the fragment. *)
Definition regexp_match (text pattern : string) : Res bool :=
  match parse_pattern (Datatypes.S (String.length pattern))
                      (JSON.codes pattern) with
  | Some p =>
      if forallb (λ c, c <? 128)%nat (JSON.codes text)
      then Ok (search p (JSON.codes text))
      else Throw (OtherError "text outside the model")
  | None => Throw (OtherError "SyntaxError")
  end.

(** Built-ins for the scenarios: decimal printing of integers, [trim] on
    ASCII white space, the encoding of [URLSearchParams] and the fragment of
    regular expressions above. *)
#[global] Instance scenario_builtins : Builtins := {|
  Number_toString := pretty;
  String_trim := trim;
  urlencode := form_urlencode;
  String_match := regexp_match;
  ApiError_extends_Error := true
|}.

(** Every other verb answers as the scripted PUT does: with its payload as
    the [data] of the response, or with its error. *)
Definition scripted_answer (e : Env Script) : Res Value * Env Script :=
  match put_answer (backend e) with
  | Ok response => (Ok (VObj [("data", data response)]), e)
  | Throw err => (Throw err, e)
  end.

#[global] Instance scripted_rest : RestApi Script := {|
  apiGet url headers := scripted_answer;
  apiPost url body headers := scripted_answer;
  apiPatch url body headers := scripted_answer;
  apiDelete url headers := scripted_answer;
  apiPostForm url form headers := scripted_answer;
  apiPutForm url form headers := scripted_answer
|}.

(** A mounted component with nothing done yet. *)
Definition mounted {S} (v : S) (w : World Script) (answers : list bool)
  : Sys Script S :=
  {| view := v; world := w; answers := answers; effects := [] |}.

Definition poster : File :=
  {| file_name := "poster.png"; file_size := 2048; file_type := "image/png" |}.

Definition handbook : File :=
  {| file_name := "handbook.pdf"; file_size := 4096;
     file_type := "application/pdf" |}.

Definition aerial : File :=
  {| file_name := "aerial.png"; file_size := 20 * 1024 * 1024;
     file_type := "image/png" |}.

Definition open_day : CreateEventFormData :=
  {| cf_title := "Open day"; cf_description := "Campus tours";
     cf_date := "2025-10-01"; cf_time := "10:00"; cf_venue := "Main hall";
     cf_capacity := 100; cf_max_participants := 80;
     cf_category_id := "c1";
     cf_featured_image := Some poster; cf_gallery_images := None |}.

(** The same form with a title of spaces only. *)
Definition untitled : CreateEventFormData :=
  {| cf_title := "  "; cf_description := cf_description open_day;
     cf_date := cf_date open_day; cf_time := cf_time open_day;
     cf_venue := cf_venue open_day;
     cf_capacity := cf_capacity open_day;
     cf_max_participants := cf_max_participants open_day;
     cf_category_id := cf_category_id open_day;
     cf_featured_image := cf_featured_image open_day;
     cf_gallery_images := cf_gallery_images open_day |}.

Definition pending_event : Obj :=
  [("id", VStr "e1"); ("title", VStr "Open day");
   ("status", VStr "pending"); ("is_published", VBool false)].

(** An event whose [id] came as a number. *)
Definition numbered_event : Obj :=
  [("id", VNum 7); ("title", VStr "Sports day"); ("status", VStr "pending")].

(** The details page showing an event, or nothing. *)
Definition details (event : option Obj) : EventDetails :=
  {| ed_event := event; ed_loading := false; ed_error := None;
     ed_actionLoading := false |}.

(** A single-image upload of at most 10 MB. *)
Definition image_upload : UploadProps :=
  {| accept := "image/*"; multiple := false; maxSize := 10; files := [];
     disabled := false |}.

(** A gallery that holds two files already. *)
Definition gallery : UploadProps :=
  {| accept := "image/*"; multiple := true; maxSize := 10;
     files := [poster; aerial]; disabled := true |}.

(** * Properties *)

Open Scope list_scope.

Ltac unfold_monad :=
  unfold try_finally, try_catch, if_truthy, discard, settle,
    tokenManager_get, tokenManager_remove, tokenManager_getAuthHeader,
    localStorage.getItem, localStorage.setItem,
    setUser_with, setUser, setIsLoading, setError, console, log, lift, throw,
    mbind, M_bind, mret, M_ret in *.

(** Case analysis on the innermost scrutinee the goal is stuck on. *)
Ltac case_on_scrutinee :=
  match goal with
  | |- context [match ?x with _ => _ end] =>
      lazymatch x with
      | context [match _ with _ => _ end] => fail
      | _ => destruct x eqn:?
      end
  end.

Ltac settle_trace :=
  simpl; rewrite <- ?(assoc_L (++)); simpl.

Ltac find_call :=
  repeat first [ by apply list_elem_of_here | apply list_elem_of_further ].

Lemma new_calls_app {B} (w w' : World B) (calls : list Call) :
  trace w' = trace w ++ calls → new_calls w w' = calls.
Proof. intros H. unfold new_calls. rewrite H. by rewrite drop_app_length. Qed.

(** ** Roles and permissions *)

Example organizer_may_edit :
  hasPermission [ROLES.ORGANIZER] PERMISSIONS.EDIT_EVENT = Ok true.
Proof. reflexivity. Qed.

Example participant_may_not_edit :
  hasPermission [ROLES.PARTICIPANT; "Guest"] PERMISSIONS.EDIT_EVENT = Ok false.
Proof. reflexivity. Qed.

(** The Administrator role carries the label ["Admin"]; the string
    ["Administrator"] has no entry. *)
Example administrator_label_is_Admin :
  ROLES.ADMIN = "Admin" ∧ JS.get ROLE_PERMISSIONS "Administrator" = Undefined.
Proof. split; reflexivity. Qed.

Lemma role_grants_own role ps p :
  ROLE_PERMISSIONS !! role = Some ps →
  role_grants p role = Ok (bool_decide (p ∈ ps)).
Proof. intros H. unfold role_grants, JS.get. by rewrite H. Qed.

Lemma role_grants_unknown role p :
  ROLE_PERMISSIONS !! role = None → role ∉ Object_prototype_keys →
  role_grants p role = Ok false.
Proof.
  intros H Hk. unfold role_grants, JS.get. rewrite H.
  by rewrite bool_decide_eq_false_2.
Qed.

Lemma role_grants_true role p :
  role_grants p role = Ok true ↔
  ∃ ps, ROLE_PERMISSIONS !! role = Some ps ∧ p ∈ ps.
Proof.
  unfold role_grants, JS.get, Array_includes.
  destruct (ROLE_PERMISSIONS !! role) as [ps|] eqn:E.
  - split.
    + intros [= H]. apply bool_decide_eq_true_1 in H. eauto.
    + intros (ps' & [= <-] & Hp). by rewrite bool_decide_eq_true_2.
  - split; [|by intros (? & ? & ?)].
    by case_bool_decide.
Qed.

Lemma Array_some_true {A} (f : A → Res bool) l :
  Array_some f l = Ok true → ∃ x, x ∈ l ∧ f x = Ok true.
Proof.
  induction l as [|x l IH]; simpl; [done|].
  destruct (f x) as [[]|] eqn:E; try done.
  - intros _. exists x. split; [left | done].
  - intros H. destruct (IH H) as (y & Hy & Hfy).
    exists y. split; [by right | done].
Qed.

(** Elements after the first hit are never visited. *)
Lemma Array_some_app_true {A} (f : A → Res bool) l l' :
  Array_some f l = Ok true → Array_some f (l ++ l') = Ok true.
Proof.
  induction l as [|x l IH]; simpl; [done|].
  by destruct (f x) as [[]|].
Qed.

Lemma Array_some_total {A} (f : A → Res bool) l :
  Forall (λ x, ∃ b, f x = Ok b) l →
  ∃ b, Array_some f l = Ok b ∧ (b = true ↔ ∃ x, x ∈ l ∧ f x = Ok true).
Proof.
  induction 1 as [|x l [b Hb] _ (b' & IH & Hiff)]; simpl.
  - exists false. split; [done|]. split; [done|].
    intros (x & Hx & _). by apply elem_of_nil in Hx.
  - rewrite Hb. destruct b.
    + exists true. split; [done|]. split; [|done].
      intros _. exists x. split; [left|done].
    + exists b'. split; [done|]. rewrite Hiff. split.
      * intros (y & Hy & Hfy). exists y. split; [by right|done].
      * intros (y & Hy & Hfy).
        apply elem_of_cons in Hy as [->|Hy]; [congruence|eauto].
Qed.

(** [hasPermission] never answers [true] for a permission the table does
    not grant. *)
Lemma hasPermission_true_granted R p :
  hasPermission R p = Ok true → granted R p.
Proof.
  intros H. apply Array_some_true in H as (r & Hr & Hg).
  apply role_grants_true in Hg as (ps & Hps & Hp). by exists r, ps.
Qed.

(** On role lists that name no property of [Object.prototype],
    [hasPermission] returns, and returns [true] exactly for the granted
    permissions. *)
Lemma hasPermission_own_keys R p :
  Forall (λ r, r ∉ Object_prototype_keys) R →
  ∃ b, hasPermission R p = Ok b ∧ (b = true ↔ granted R p).
Proof.
  intros HR.
  destruct (Array_some_total (role_grants p) R) as (b & Hb & Hiff).
  - eapply Forall_impl; [exact HR|]. intros r Hr. simpl.
    destruct (ROLE_PERMISSIONS !! r) as [ps|] eqn:E.
    + eexists. by apply role_grants_own.
    + exists false. by apply role_grants_unknown.
  - exists b. split; [done|]. rewrite Hiff. unfold granted. split.
    + intros (r & Hr & Hg).
      apply role_grants_true in Hg as (ps & ? & ?). by exists r, ps.
    + intros (r & ps & Hr & Hps & Hp). exists r. split; [done|].
      apply role_grants_true. eauto.
Qed.

Lemma hasPermission_nil p : hasPermission [] p = Ok false.
Proof. reflexivity. Qed.

Lemma hasRole_nil r : hasRole [] r = false.
Proof. reflexivity. Qed.

Lemma approve_event_admin_only : admin_only PERMISSIONS.APPROVE_EVENT.
Proof.
  split; [by apply (bool_decide_unpack _)|].
  intros r ps Hr. unfold ROLE_PERMISSIONS.
  rewrite lookup_insert_ne by done.
  rewrite !lookup_insert. repeat case_decide; try done.
  all: intros [= <-]; by apply (bool_decide_unpack _).
Qed.

(** C1: [hasPermission] is meant to answer [false] for a role without a
    table entry, but a role named like a property of [Object.prototype]
    makes it throw: for the role list [["constructor"]] and the permission
    [create_event] nothing is granted by the table, yet the call raises a
    [TypeError] instead of returning [false]. *)
Theorem hasPermission_inherited_key_throws :
  ¬ granted ["constructor"] PERMISSIONS.CREATE_EVENT ∧
  hasPermission ["constructor"] PERMISSIONS.CREATE_EVENT
    = Throw (TypeError "rolePermissions.includes is not a function") ∧
  hasPermission ["constructor"] PERMISSIONS.CREATE_EVENT ≠ Ok false.
Proof.
  split; [|split; [reflexivity|done]].
  intros (r & ps & Hr & Hps & _).
  apply list_elem_of_singleton in Hr as ->. done.
Qed.

(** C4: for every permission granted to the Administrator role only,
    [hasPermission] is [false] on the role list [[Organizer]] and [true] on
    [[Organizer, Administrator]]; the predicate is a function of the role
    list it is given, so the new list takes effect at once. *)
Theorem role_update_flips_permission p :
  admin_only p →
  hasPermission [ROLES.ORGANIZER] p = Ok false ∧
  hasPermission [ROLES.ORGANIZER; ROLES.ADMIN] p = Ok true.
Proof.
  intros [Hadm Honly].
  assert (Horg : p ∉ ORGANIZER_PERMISSIONS)
    by (by apply (Honly ROLES.ORGANIZER)).
  unfold hasPermission. simpl.
  rewrite (role_grants_own ROLES.ORGANIZER ORGANIZER_PERMISSIONS) by done.
  rewrite (role_grants_own ROLES.ADMIN ADMIN_PERMISSIONS) by done.
  rewrite bool_decide_eq_false_2 by done.
  by rewrite bool_decide_eq_true_2.
Qed.

Lemma role_update_flips_permission_witness :
  admin_only PERMISSIONS.APPROVE_EVENT ∧
  hasPermission [ROLES.ORGANIZER] PERMISSIONS.APPROVE_EVENT = Ok false ∧
  hasPermission [ROLES.ORGANIZER; ROLES.ADMIN] PERMISSIONS.APPROVE_EVENT
    = Ok true.
Proof.
  split; [exact approve_event_admin_only|].
  apply (role_update_flips_permission PERMISSIONS.APPROVE_EVENT).
  exact approve_event_admin_only.
Defined.

(** C10: appending a role to a role list never turns a [true] answer of
    [hasPermission] or of [hasRole] into anything else. *)
Theorem adding_a_role_is_monotone (R : list string) (r p q : string) :
  (hasPermission R p = Ok true → hasPermission (R ++ [r]) p = Ok true) ∧
  (hasRole R q = true → hasRole (R ++ [r]) q = true).
Proof.
  split.
  - apply Array_some_app_true.
  - unfold hasRole, Array_includes. intros H.
    apply bool_decide_eq_true_1 in H. apply bool_decide_eq_true_2.
    apply elem_of_app. by left.
Qed.

Lemma adding_a_role_is_monotone_witness :
  hasPermission [ROLES.ORGANIZER; "constructor"] PERMISSIONS.EDIT_EVENT
    = Ok true ∧
  hasRole [ROLES.ORGANIZER; ROLES.VISITOR] ROLES.ORGANIZER = true.
Proof.
  destruct (adding_a_role_is_monotone [ROLES.ORGANIZER] "constructor"
              PERMISSIONS.EDIT_EVENT ROLES.ORGANIZER) as [Hp _].
  destruct (adding_a_role_is_monotone [ROLES.ORGANIZER] ROLES.VISITOR
              PERMISSIONS.EDIT_EVENT ROLES.ORGANIZER) as [_ Hr].
  split; [apply Hp | apply Hr]; reflexivity.
Defined.

(** ** Objects *)

Lemma obj_get_None (o : Obj) k : k ∉ keys o → obj_get o k = None.
Proof.
  induction o as [|[k' v] o IH]; simpl; [done|].
  intros Hk. apply not_elem_of_cons in Hk as [Hne Hk].
  rewrite decide_False by done. by apply IH.
Qed.

Lemma obj_get_set_eq (o : Obj) k v : obj_get (obj_set o k v) k = Some v.
Proof.
  induction o as [|[k' v'] o IH]; simpl.
  - by rewrite decide_True.
  - destruct (decide (k = k')) as [->|Hne]; simpl.
    + by rewrite decide_True.
    + by rewrite decide_False.
Qed.

Lemma obj_get_set_ne (o : Obj) k k' v :
  k ≠ k' → obj_get (obj_set o k' v) k = obj_get o k.
Proof.
  intros Hne. induction o as [|[k'' v''] o IH]; simpl.
  - by rewrite decide_False.
  - destruct (decide (k' = k'')) as [->|Hne']; simpl.
    + by rewrite !decide_False.
    + destruct (decide (k = k'')); [done|]. apply IH.
Qed.

(** Reading a property of [{ ...u, ...P }]: [P]'s value when [P] names the
    property, [u]'s otherwise. *)
Lemma obj_get_spread (u P : Obj) k :
  NoDup (keys P) →
  obj_get (spread u P) k =
    match obj_get P k with
    | Some v => Some v
    | None => obj_get u k
    end.
Proof.
  unfold spread. revert u.
  induction P as [|[k0 v0] P IH]; intros u Hnd; simpl; [done|].
  apply NoDup_cons in Hnd as [Hk0 Hnd].
  rewrite IH by done.
  destruct (decide (k = k0)) as [->|Hne].
  - rewrite obj_get_None by done. apply obj_get_set_eq.
  - destruct (obj_get P k); [done|]. by apply obj_get_set_ne.
Qed.

Example promote_alice :
  obj_get (spread alice [("roles", VArr [VStr "Organizer"; VStr "Admin"])])
    "roles" = Some (VArr [VStr "Organizer"; VStr "Admin"]) ∧
  keys (spread alice [("roles", VNull); ("phone", VNull)])
    = ["id"; "email"; "roles"; "is_active"; "phone"].
Proof. split; reflexivity. Qed.

(** ** Token manager *)


Lemma tokenManager_set_overwrites {B} (e : Env B) (t t' : string) :
  tokenManager.set t' (tokenManager.set t e) = tokenManager.set t' e.
Proof. reflexivity. Qed.

Lemma tokenManager_remove_idempotent {B} (e : Env B) :
  tokenManager.remove (tokenManager.remove e) = tokenManager.remove e.
Proof. reflexivity. Qed.

(** Distinct tokens give distinct headers. *)
Lemma header_of_inj (t t' : string) :
  tokenManager.header_of t = tokenManager.header_of t' → t = t'.
Proof. unfold tokenManager.header_of. intros [= H]. exact H. Qed.

(** ** The authentication context *)

Section AuthProviderFacts.
Context {B : Type} `{!Json} `{!AuthApi B}.

(** C5: a [login] that fails with an [ApiError] leaves the user absent,
    stores the error's message and rethrows the error; a following [login]
    that succeeds resets the error to [null] and sets the user to the
    record of the response. *)
Theorem login_failure_then_success
    (w : World B) (email password email' password' message : string)
    (e1 e2 : Env B) (response : AuthResponse) :
  user w = None →
  loginUser email password (env w) = (Throw (ApiError message), e1) →
  loginUser email' password' e1 = (Ok response, e2) →
  ∃ w1 w2,
    login email password w = (Throw (ApiError message), w1) ∧
    user w1 = None ∧ error w1 = Some message ∧ isLoading w1 = false ∧
    login email' password' w1 = (Ok (), w2) ∧
    error w2 = None ∧ user w2 = Some (resp_user response) ∧
    isLoading w2 = false.
Proof.
  intros Hu Hfail Hok.
  unfold login, call_loginUser. unfold_monad. simpl.
  rewrite Hfail. simpl.
  do 2 eexists. split; [reflexivity|]. simpl.
  rewrite Hok. simpl. by repeat split.
Qed.

(** C3, amended: [logout] always returns normally with the loading flag
    off and storage as [logoutUser] left it, never calling
    [tokenManager.remove()] itself; when the backend call returns normally
    the user is set to absent. *)
Theorem logout_clears_user_when_backend_returns (w : World B) :
  ∃ w',
    logout w = (Ok (), w') ∧
    isLoading w' = false ∧ error w' = error w ∧
    env w' = (logoutUser (env w)).2 ∧
    (CTokenRemove ∉ new_calls w w') ∧
    ((logoutUser (env w)).1 = Ok () → user w' = None).
Proof.
  unfold logout, call_logoutUser. unfold_monad. simpl.
  destruct (logoutUser (env w)) as [[[]|err] e'] eqn:E; simpl.
  all: eexists; split; [reflexivity|]; simpl.
  all: erewrite new_calls_app; [|settle_trace; reflexivity].
  all: repeat split; try done.
  all: intros Hin; repeat (apply elem_of_cons in Hin as [Hin|Hin]; [done|]).
  all: by apply elem_of_nil in Hin.
Qed.

(** C7: with a user set, [updateUser(P)] replaces the user by the merge of
    the current user and [P] (fields of [P] take [P]'s values, the others
    are kept) and writes the serialised merge under [auth_user]; with no
    user set it changes neither the state nor the cache. *)
Theorem updateUser_merges_and_caches (w : World B) (P : Obj) :
  NoDup (keys P) →
  ∃ w',
    updateUser P w = (Ok (), w') ∧
    isLoading w' = isLoading w ∧ error w' = error w ∧
    token_store (env w') = token_store (env w) ∧
    match user w with
    | Some u =>
        user w' = Some (spread u P) ∧
        (∀ k, obj_get (spread u P) k =
                match obj_get P k with
                | Some v => Some v
                | None => obj_get u k
                end) ∧
        CSetItem "auth_user" (JSON_stringify (spread u P)) ∈ new_calls w w' ∧
        (quota_exceeded (env w) = false →
         local_storage (env w') !! "auth_user"
           = Some (JSON_stringify (spread u P)))
    | None =>
        user w' = None ∧ env w' = env w ∧
        ∀ key value, CSetItem key value ∉ new_calls w w'
    end.
Proof.
  intros Hnd. unfold updateUser. unfold_monad.
  destruct (user w) as [u|] eqn:Hu; simpl.
  - destruct (quota_exceeded (env w)) eqn:Hq; simpl.
    all: eexists; split; [reflexivity|]; simpl.
    all: erewrite new_calls_app; [|settle_trace; reflexivity].
    all: repeat split; try done.
    all: try (intros k; by apply obj_get_spread).
    all: try find_call.
    intros _. apply lookup_insert_eq.
  - eexists. split; [reflexivity|]. simpl.
    erewrite new_calls_app; [|reflexivity].
    repeat split; try done.
    intros key value Hin. apply list_elem_of_singleton in Hin. discriminate.
Qed.

(** C9, amended: [checkAuth] always returns with the loading flag off, its
    last call being [setIsLoading(false)]; it clears the flag once when no
    cached profile is shown and twice when one is. *)
Theorem checkAuth_clears_loading (w : World B) :
  ∃ w',
    checkAuth w = (Ok (), w') ∧
    isLoading w' = false ∧
    last (trace w') = Some (CSetIsLoading false) ∧
    loading_cleared (new_calls w w') = if hydrates w then 2 else 1.
Proof.
  unfold checkAuth, validate, hydrate, hydrates, truthy_opt,
    call_validateToken, call_refreshAccessToken, call_JSON_parse.
  unfold_monad. unfold tokenManager.get. simpl.
  repeat (case_on_scrutinee; simpl).
  all: eexists; split; [reflexivity|]; simpl.
  all: split; [done|]; split; [by rewrite last_snoc|].
  all: erewrite new_calls_app; [|settle_trace; reflexivity].
  all: done.
Qed.

(** C2, amended: started with a stored non-empty token, [checkAuth] calls
    the refresh endpoint exactly once when the first validation returns no
    user, and not at all when it throws (or succeeds); whenever the first
    validation throws, the refresh throws, or the validation of the
    refreshed token returns no user or throws, the user ends absent and the
    token removed by [tokenManager.remove()]. *)
Theorem checkAuth_failed_validation (w : World B) (token : string) :
  token_store (env w) = Some token → truthy token = true →
  ∃ w',
    checkAuth w = (Ok (), w') ∧
    refresh_calls (new_calls w w') =
      match first_validation token (env w) with
      | Ok None => 1
      | _ => 0
      end ∧
    (ChainFails token (env w) →
     user w' = None ∧ token_store (env w') = None ∧
     CTokenRemove ∈ new_calls w w').
Proof.
  intros Htok Htruthy.
  unfold checkAuth, validate, hydrate, first_validation,
    call_validateToken, call_refreshAccessToken, call_JSON_parse.
  unfold_monad. unfold tokenManager.get. simpl.
  rewrite Htok. simpl. rewrite Htruthy. simpl.
  repeat (case_on_scrutinee; simpl).
  all: eexists; split; [reflexivity|]; simpl.
  all: erewrite new_calls_app; [|settle_trace; reflexivity].
  all: split; [done|].
  all: intros Hfail; destruct Hfail; simplify_eq; try congruence.
  all: split; [done|]; split; [done|].
  all: find_call.
Qed.

End AuthProviderFacts.

(** ** Event API *)

Section EventsFacts.
Context {B : Type} `{!HttpApi B}.

(** C8, amended: [declineEvent(id)] performs exactly what
    [updateEvent(id, {status: "cancelled"})] performs, one PUT on the
    generic event endpoint with the status set to the cancellation state,
    leaves the same world and rejects with the same error; when the update
    fulfils, [declineEvent] fulfils with [undefined], not with the event. *)
Theorem declineEvent_drops_update_result (w : World B) (eventId : string) :
  let headers := tokenManager.getAuthHeader (env w) in
  (settle (declineEvent eventId) w).2
    = (settle (updateEvent eventId cancelled) w).2 ∧
  (settle (declineEvent eventId) w).1
    = match (settle (updateEvent eventId cancelled) w).1 with
      | Ok _ => Ok VUndefined
      | Throw err => Throw err
      end ∧
  new_calls w (declineEvent eventId w).2
    = [CGetAuthHeader; CApiPut (event_url eventId) cancelled headers].
Proof.
  unfold declineEvent, updateEvent, call_apiPut. unfold_monad. simpl.
  destruct (apiPut _ _ _ (env w)) as [[r|err] e'] eqn:E; simpl.
  all: repeat split; try done.
  all: apply new_calls_app; simpl; by rewrite <- (assoc_L (++)).
Qed.

End EventsFacts.

(** ** The scenarios on the scripted backend *)

(** C2 as worded fails: the stored token's validation throws (the backend
    is unreachable), and [checkAuth] makes no refresh call at all. *)
Lemma checkAuth_validation_throw_skips_refresh :
  first_validation "tok" (env (page_load ∅ offline)) = Throw network_error ∧
  refresh_calls (trace (checkAuth (page_load ∅ offline)).2) = 0 ∧
  refresh_calls (trace (checkAuth (page_load ∅ offline)).2) ≠ 1.
Proof. split; [reflexivity|]. split; [reflexivity|]. by vm_compute. Qed.

Lemma checkAuth_failed_validation_witness :
  token_store (env (page_load ∅ expired)) = Some "tok" ∧
  truthy "tok" = true ∧
  ChainFails "tok" (env (page_load ∅ expired)) ∧
  refresh_calls (trace (checkAuth (page_load ∅ expired)).2) = 1 ∧
  user (checkAuth (page_load ∅ expired)).2 = None ∧
  token_store (env (checkAuth (page_load ∅ expired)).2) = None.
Proof.
  assert (Hfail : ChainFails "tok" (env (page_load ∅ expired)))
    by (eapply refresh_throws; reflexivity).
  destruct (checkAuth_failed_validation (page_load ∅ expired) "tok"
              eq_refl eq_refl) as (w' & Hrun & Hcount & Hclear).
  destruct (Hclear Hfail) as (Huser & Htoken & _).
  rewrite Hrun. simpl.
  repeat split; [exact Hfail | | exact Huser | exact Htoken].
  unfold new_calls in Hcount. simpl in Hcount. exact Hcount.
Defined.

(** C3 as worded fails: the backend logout call throws, and [logout]
    leaves both the user and the stored token in place. *)
Lemma logout_backend_failure_keeps_session :
  (logoutUser (env (signed_in offline))).1 = Throw network_error ∧
  user (logout (signed_in offline)).2 = Some alice ∧
  token_store (env (logout (signed_in offline)).2) = Some "tok" ∧
  ¬ session_cleared (logout (signed_in offline)).2.
Proof.
  split; [reflexivity|]. split; [reflexivity|]. split; [reflexivity|].
  intros [Huser _]. vm_compute in Huser. discriminate.
Qed.

Lemma logout_clears_user_when_backend_returns_witness :
  (logoutUser (env (signed_in expired))).1 = Ok () ∧
  logout (signed_in expired) = (Ok (), (logout (signed_in expired)).2) ∧
  user (logout (signed_in expired)).2 = None ∧
  isLoading (logout (signed_in expired)).2 = false.
Proof.
  destruct (logout_clears_user_when_backend_returns (signed_in expired))
    as (w' & Hrun & Hloading & _ & _ & _ & Huser).
  rewrite Hrun. simpl.
  repeat split; [exact (Huser eq_refl) | exact Hloading].
Defined.

Lemma login_failure_then_success_witness :
  let w := initial (browser None ∅ expired) in
  let w1 := (login "alice@example.org" "guess" w).2 in
  let w2 := (login "alice@example.org" "s3cret" w1).2 in
  user w = None ∧
  loginUser "alice@example.org" "guess" (env w)
    = (Throw (ApiError "Invalid credentials"), env w) ∧
  loginUser "alice@example.org" "s3cret" (env w)
    = (Ok {| resp_user := alice |}, env w) ∧
  (login "alice@example.org" "guess" w).1
    = Throw (ApiError "Invalid credentials") ∧
  user w1 = None ∧ error w1 = Some "Invalid credentials" ∧
  (login "alice@example.org" "s3cret" w1).1 = Ok () ∧
  error w2 = None ∧ user w2 = Some alice.
Proof.
  intros w w1 w2. subst w1 w2.
  assert (Hwrong : loginUser "alice@example.org" "guess" (env w)
                   = (Throw (ApiError "Invalid credentials"), env w))
    by reflexivity.
  assert (Hright : loginUser "alice@example.org" "s3cret" (env w)
                   = (Ok {| resp_user := alice |}, env w))
    by reflexivity.
  destruct (login_failure_then_success w
              "alice@example.org" "guess" "alice@example.org" "s3cret"
              "Invalid credentials" (env w) (env w) {| resp_user := alice |}
              eq_refl Hwrong Hright)
    as (w1 & w2 & Hfail & Hu1 & He1 & _ & Hok & He2 & Hu2 & _).
  rewrite Hfail. simpl. rewrite Hok. simpl.
  repeat split; assumption || reflexivity.
Defined.

Lemma updateUser_merges_and_caches_witness :
  NoDup (keys promotion) ∧
  quota_exceeded (env (signed_in expired)) = false ∧
  user (updateUser promotion (signed_in expired)).2
    = Some (spread alice promotion) ∧
  local_storage (env (updateUser promotion (signed_in expired)).2)
    !! "auth_user" = Some (JSON_stringify (spread alice promotion)) ∧
  user (updateUser promotion (page_load ∅ expired)).2 = None ∧
  env (updateUser promotion (page_load ∅ expired)).2
    = env (page_load ∅ expired).
Proof.
  assert (Hnd : NoDup (keys promotion))
    by (apply NoDup_singleton).
  destruct (updateUser_merges_and_caches (signed_in expired) promotion Hnd)
    as (w1 & Hrun1 & _ & _ & _ & Huser1 & _ & _ & Hcache).
  destruct (updateUser_merges_and_caches (page_load ∅ expired) promotion Hnd)
    as (w2 & Hrun2 & _ & _ & _ & Huser2 & Henv2 & _).
  rewrite Hrun1, Hrun2. simpl.
  repeat split;
    [exact Hnd | exact Huser1 | exact (Hcache eq_refl)
    | exact Huser2 | exact Henv2].
Defined.

(** A role update on the signed-in user shows in the next permission
    check: nothing is cached between the user record and [hasPermission]. *)
Example promotion_takes_effect :
  let before := signed_in expired in
  let after := (updateUser promotion before).2 in
  user_roles (user before) = [ROLES.ORGANIZER] ∧
  hasPermission (user_roles (user before)) PERMISSIONS.APPROVE_EVENT
    = Ok false ∧
  user_roles (user after) = [ROLES.ORGANIZER; ROLES.ADMIN] ∧
  hasPermission (user_roles (user after)) PERMISSIONS.APPROVE_EVENT
    = Ok true.
Proof. repeat split. Qed.

(** C8 as worded fails: when the backend answers the update with the
    event, [updateEvent] fulfils with that event and [declineEvent] with
    [undefined]. *)
Lemma declineEvent_not_extensionally_updateEvent :
  (settle (declineEvent "e1") (signed_in expired)).1 = Ok VUndefined ∧
  (settle (declineEvent_spec "e1") (signed_in expired)).1
    = Ok (VObj [("id", VStr "e1"); ("status", VStr "cancelled")]) ∧
  settle (declineEvent "e1") (signed_in expired)
    ≠ settle (declineEvent_spec "e1") (signed_in expired).
Proof.
  split; [reflexivity|]. split; [reflexivity|].
  intros H. apply (f_equal fst) in H. vm_compute in H. discriminate.
Qed.

(** C9 as worded fails: with a stored token and a cached profile,
    [checkAuth] calls [setIsLoading(false)] twice. *)
Lemma checkAuth_hydration_clears_loading_twice :
  let w := page_load {["auth_user" := alice_json]} expired in
  JSON_parse alice_json = Ok (Some alice) ∧
  hydrates w = true ∧
  loading_cleared (trace (checkAuth w).2) = 2 ∧
  loading_cleared (trace (checkAuth w).2) ≠ 1.
Proof.
  split; [by vm_compute|]. split; [by vm_compute|].
  split; by vm_compute.
Qed.

(** * Further properties: registration, the remaining API wrappers and
    the pages *)

(** ** Registration and login outcomes *)

Section RegistrationFacts.
Context {B : Type} `{!RegistrationApi B}.

(** X1: [signup] hands back exactly what the backend call gave (the
    registration id, or the same exception), never touches the user, ends
    with the loading flag off, and leaves the error slot empty on success
    and holding the message (or the fixed fallback) on failure. *)
Theorem signup_outcomes (w : World B) (userData : Value) :
  ∃ w',
    signup userData w = ((signupUser userData (env w)).1, w') ∧
    user w' = user w ∧
    isLoading w' = false ∧
    env w' = (signupUser userData (env w)).2 ∧
    error w' =
      match (signupUser userData (env w)).1 with
      | Ok _ => None
      | Throw err => Some (error_message err "Signup failed")
      end.
Proof.
  unfold signup. unfold_monad. simpl.
  destruct (signupUser userData (env w)) as [[regId|err] e'] eqn:E; simpl.
  all: eexists; split; [reflexivity|]; by repeat split.
Qed.

(** X2: [verifyEmail] sets the user to the record of the response and
    empties the error slot when the code is accepted; when the call
    rejects, the user stays as it was, the error slot holds the message
    (or the fixed fallback) and the same exception reaches the caller. *)
Theorem verifyEmail_outcomes (w : World B) (code regId : string) :
  ∃ w',
    verifyEmail code regId w =
      (match (verifyEmailApi code regId (env w)).1 with
       | Ok _ => Ok ()
       | Throw err => Throw err
       end, w') ∧
    isLoading w' = false ∧
    env w' = (verifyEmailApi code regId (env w)).2 ∧
    match (verifyEmailApi code regId (env w)).1 with
    | Ok response => user w' = Some (resp_user response) ∧ error w' = None
    | Throw err =>
        user w' = user w ∧
        error w' = Some (error_message err "Email verification failed")
    end.
Proof.
  unfold verifyEmail. unfold_monad. simpl.
  destruct (verifyEmailApi code regId (env w)) as [[response|err] e'] eqn:E;
    simpl.
  all: eexists; split; [reflexivity|]; by repeat split.
Qed.

End RegistrationFacts.

Section LoginFacts.
Context {B : Type} `{!AuthApi B}.

(** X3: a rejected [login] leaves the user as it was (a signed-in user stays
    signed in), stores the message of an [ApiError] or the fixed text
    "Login failed" for any other exception, switches the loading flag off
    and rethrows the same exception. *)
Theorem login_rejected (w : World B) (email password : string)
    (err : Error) (e1 : Env B) :
  loginUser email password (env w) = (Throw err, e1) →
  ∃ w',
    login email password w = (Throw err, w') ∧
    user w' = user w ∧
    error w' = Some (error_message err "Login failed") ∧
    isLoading w' = false ∧
    env w' = e1.
Proof.
  intros Hfail. unfold login, call_loginUser. unfold_monad. simpl.
  rewrite Hfail. simpl. eexists. split; [reflexivity|]. by repeat split.
Qed.

End LoginFacts.

Lemma login_rejected_witness :
  loginUser "alice@example.org" "s3cret" (env (signed_in offline))
    = (Throw network_error, env (signed_in offline)) ∧
  user (login "alice@example.org" "s3cret" (signed_in offline)).2
    = Some alice ∧
  error (login "alice@example.org" "s3cret" (signed_in offline)).2
    = Some "Login failed".
Proof.
  assert (Hdown : loginUser "alice@example.org" "s3cret"
                    (env (signed_in offline))
                  = (Throw network_error, env (signed_in offline)))
    by reflexivity.
  destruct (login_rejected (signed_in offline) "alice@example.org" "s3cret"
              network_error (env (signed_in offline)) Hdown)
    as (w' & Hrun & Huser & Herr & _).
  rewrite Hrun. simpl. repeat split; assumption.
Defined.

(** ** More on [checkAuth] *)

Section CheckAuthMore.
Context {B : Type} `{!Json} `{!AuthApi B}.

(** X4: without a stored token, or with an empty one, [checkAuth] reads the
    token, switches the loading flag off and does nothing else: no cache
    read, no request, the user untouched. *)
Theorem checkAuth_without_token (w : World B) :
  truthy_opt (token_store (env w)) = false →
  checkAuth w =
    (Ok (),
     {| user := user w; isLoading := false; error := error w;
        env := env w;
        trace := trace w ++ [CTokenGet; CSetIsLoading false] |}).
Proof.
  intros Hno. unfold checkAuth. unfold_monad. unfold tokenManager.get. simpl.
  destruct (token_store (env w)) as [token|]; simpl in *.
  - rewrite Hno. simpl. by rewrite <- (assoc_L (++)).
  - by rewrite <- (assoc_L (++)).
Qed.

Ltac run_checkAuth Htok Htruthy :=
  unfold checkAuth, validate, hydrate, user_after_hydration,
    call_validateToken, call_refreshAccessToken, call_JSON_parse;
  unfold_monad; unfold tokenManager.get; simpl;
  rewrite Htok; simpl; rewrite Htruthy; simpl.

(** X5: when the stored token validates, [checkAuth] sets the user to the
    validated record, whatever the cache held, with exactly one validation,
    no refresh and no token removal. *)
Theorem checkAuth_valid_token (w : World B) (token : string)
    (fresh : User) (e1 : Env B) :
  token_store (env w) = Some token → truthy token = true →
  validateToken token (env w) = (Ok (Some fresh), e1) →
  ∃ w',
    checkAuth w = (Ok (), w') ∧
    user w' = Some fresh ∧ env w' = e1 ∧ isLoading w' = false ∧
    validated (new_calls w w') = [token] ∧
    refresh_calls (new_calls w w') = 0 ∧
    removals (new_calls w w') = 0.
Proof.
  intros Htok Htruthy Hvalid. run_checkAuth Htok Htruthy.
  repeat (first [rewrite Hvalid | case_on_scrutinee]; simpl).
  all: eexists; split; [reflexivity|]; simpl.
  all: erewrite new_calls_app; [|settle_trace; reflexivity].
  all: by repeat split.
Qed.

(** X6: when the stored token no longer validates but the refresh stores a
    token that does, [checkAuth] sets the user to the record validated with
    the new token: two validations (old token, then new), one refresh, no
    removal. *)
Theorem checkAuth_refreshed_token (w : World B) (token newToken : string)
    (fresh : User) (e1 e2 e3 : Env B) :
  token_store (env w) = Some token → truthy token = true →
  validateToken token (env w) = (Ok None, e1) →
  refreshAccessToken e1 = (Ok (), e2) →
  token_store e2 = Some newToken → truthy newToken = true →
  validateToken newToken e2 = (Ok (Some fresh), e3) →
  ∃ w',
    checkAuth w = (Ok (), w') ∧
    user w' = Some fresh ∧ env w' = e3 ∧ isLoading w' = false ∧
    validated (new_calls w w') = [token; newToken] ∧
    refresh_calls (new_calls w w') = 1 ∧
    removals (new_calls w w') = 0.
Proof.
  intros Htok Htruthy Hvalid Hrefresh Hnew Hnewtruthy Hrevalid.
  run_checkAuth Htok Htruthy.
  repeat (first [ rewrite Hvalid | rewrite Hrefresh | rewrite Hnew
                | rewrite Hnewtruthy | rewrite Hrevalid
                | case_on_scrutinee ]; simpl).
  all: eexists; split; [reflexivity|]; simpl.
  all: erewrite new_calls_app; [|settle_trace; reflexivity].
  all: by repeat split.
Qed.

(** X7: when the refresh returns but leaves no usable token in the store,
    [checkAuth] stops there: the user stays what the cache hydration made it,
    nothing is validated again and the token is not removed. *)
Theorem checkAuth_refresh_without_token (w : World B) (token : string)
    (e1 e2 : Env B) :
  token_store (env w) = Some token → truthy token = true →
  validateToken token (env w) = (Ok None, e1) →
  refreshAccessToken e1 = (Ok (), e2) →
  truthy_opt (token_store e2) = false →
  ∃ w',
    checkAuth w = (Ok (), w') ∧
    user w' = user_after_hydration w ∧
    env w' = e2 ∧ isLoading w' = false ∧
    validated (new_calls w w') = [token] ∧
    removals (new_calls w w') = 0.
Proof.
  intros Htok Htruthy Hvalid Hrefresh Hnone.
  run_checkAuth Htok Htruthy.
  unfold truthy_opt in Hnone.
  destruct (token_store e2) as [t2|] eqn:Hnew.
  all: repeat (first [ rewrite Hvalid | rewrite Hrefresh | rewrite Hnew
                     | rewrite Hnone | case_on_scrutinee ]; simpl).
  all: eexists; split; [reflexivity|]; simpl.
  all: erewrite new_calls_app; [|settle_trace; reflexivity].
  all: by repeat split.
Qed.

(** X8: in every run [checkAuth] refreshes at most once, removes the token at
    most once, and validates at most once more than it refreshes. *)
Theorem checkAuth_call_bounds (w : World B) :
  let calls := new_calls w (checkAuth w).2 in
  (length (validated calls) ≤ 1 + refresh_calls calls)%nat ∧
  (refresh_calls calls ≤ 1)%nat ∧
  (removals calls ≤ 1)%nat.
Proof.
  unfold checkAuth, validate, hydrate,
    call_validateToken, call_refreshAccessToken, call_JSON_parse.
  unfold_monad. unfold tokenManager.get. simpl.
  repeat (case_on_scrutinee; simpl).
  all: erewrite new_calls_app; [|settle_trace; reflexivity].
  all: cbv; repeat split; lia.
Qed.

End CheckAuthMore.

Lemma checkAuth_without_token_witness :
  truthy_opt (token_store (env (initial (browser (Some "") ∅ offline))))
    = false ∧
  checkAuth (initial (browser (Some "") ∅ offline)) =
    (Ok (),
     {| user := None; isLoading := false; error := None;
        env := browser (Some "") ∅ offline;
        trace := [CTokenGet; CSetIsLoading false] |}).
Proof.
  split; [reflexivity|].
  exact (checkAuth_without_token (initial (browser (Some "") ∅ offline))
           eq_refl).
Defined.

Lemma checkAuth_valid_token_witness :
  let w := page_load {["auth_user" := "{stale}"]} healthy in
  validateToken "tok" (env w) = (Ok (Some alice), env w) ∧
  user (checkAuth w).2 = Some alice ∧
  token_store (env (checkAuth w).2) = Some "tok".
Proof.
  intros w.
  assert (Hvalid : validateToken "tok" (env w) = (Ok (Some alice), env w))
    by reflexivity.
  destruct (checkAuth_valid_token w "tok" alice (env w)
              eq_refl eq_refl Hvalid)
    as (w' & Hrun & Huser & Henv & _).
  rewrite Hrun. simpl. rewrite Henv.
  repeat split; [exact Huser].
Defined.

Lemma checkAuth_refreshed_token_witness :
  let w := page_load ∅ rotating in
  let e2 := tokenManager.set "fresh" (env w) in
  validateToken "tok" (env w) = (Ok None, env w) ∧
  refreshAccessToken (env w) = (Ok (), e2) ∧
  validateToken "fresh" e2 = (Ok (Some alice), e2) ∧
  user (checkAuth w).2 = Some alice ∧
  token_store (env (checkAuth w).2) = Some "fresh" ∧
  validated (trace (checkAuth w).2) = ["tok"; "fresh"].
Proof.
  intros w e2.
  assert (H1 : validateToken "tok" (env w) = (Ok None, env w))
    by reflexivity.
  assert (H2 : refreshAccessToken (env w) = (Ok (), e2)) by reflexivity.
  assert (H3 : validateToken "fresh" e2 = (Ok (Some alice), e2))
    by reflexivity.
  destruct (checkAuth_refreshed_token w "tok" "fresh" alice (env w) e2 e2
              eq_refl eq_refl H1 H2 eq_refl eq_refl H3)
    as (w' & Hrun & Huser & Henv & _ & Hvalidated & _).
  rewrite Hrun. simpl. rewrite Henv.
  repeat split; [exact Huser | exact Hvalidated].
Defined.

Lemma checkAuth_refresh_without_token_witness :
  let w := page_load {["auth_user" := alice_json]} forgetful in
  let e2 := tokenManager.set "" (env w) in
  validateToken "tok" (env w) = (Ok None, env w) ∧
  refreshAccessToken (env w) = (Ok (), e2) ∧
  truthy_opt (token_store e2) = false ∧
  user (checkAuth w).2 = Some alice ∧
  removals (trace (checkAuth w).2) = 0.
Proof.
  intros w e2.
  assert (H1 : validateToken "tok" (env w) = (Ok None, env w))
    by reflexivity.
  assert (H2 : refreshAccessToken (env w) = (Ok (), e2)) by reflexivity.
  destruct (checkAuth_refresh_without_token w "tok" (env w) e2
              eq_refl eq_refl H1 H2 eq_refl)
    as (w' & Hrun & Huser & _ & _ & _ & Hremovals).
  rewrite Hrun. simpl.
  repeat split; [exact Huser | exact Hremovals].
Defined.

(** ** The role table as a decision table *)

Lemma ROLE_PERMISSIONS_entries r ps :
  ROLE_PERMISSIONS !! r = Some ps →
  (r = ROLES.ADMIN ∧ ps = ADMIN_PERMISSIONS) ∨
  (r = ROLES.ORGANIZER ∧ ps = ORGANIZER_PERMISSIONS) ∨
  (r = ROLES.PARTICIPANT ∧ ps = []) ∨
  (r = ROLES.VISITOR ∧ ps = []).
Proof.
  unfold ROLE_PERMISSIONS. rewrite !lookup_insert.
  repeat case_decide; subst; rewrite ?lookup_empty; intros [= <-]; eauto 6.
Qed.

Lemma organizer_permissions_are_admin_permissions p :
  p ∈ ORGANIZER_PERMISSIONS → p ∈ ADMIN_PERMISSIONS.
Proof.
  intros H. unfold ORGANIZER_PERMISSIONS in H.
  repeat (apply elem_of_cons in H as [->|H];
          [by apply (bool_decide_unpack _)|]).
  by apply elem_of_nil in H.
Qed.

Lemma granted_organizer_level R p :
  p ∈ ORGANIZER_PERMISSIONS →
  granted R p ↔ ROLES.ADMIN ∈ R ∨ ROLES.ORGANIZER ∈ R.
Proof.
  intros Hp. split.
  - intros (r & ps & Hr & Hps & Hin).
    apply ROLE_PERMISSIONS_entries in Hps
      as [[-> ->]|[[-> ->]|[[-> ->]|[-> ->]]]]; eauto.
    all: by apply elem_of_nil in Hin.
  - intros [H|H].
    + exists ROLES.ADMIN, ADMIN_PERMISSIONS. split; [done|]. split; [done|].
      by apply organizer_permissions_are_admin_permissions.
    + by exists ROLES.ORGANIZER, ORGANIZER_PERMISSIONS.
Qed.

Lemma granted_admin_only R p :
  admin_only p → granted R p ↔ ROLES.ADMIN ∈ R.
Proof.
  intros [Hp Honly]. split.
  - intros (r & ps & Hr & Hps & Hin).
    destruct (decide (r = ROLES.ADMIN)) as [->|Hne]; [done|].
    by destruct (Honly r ps Hne Hps).
  - intros H. by exists ROLES.ADMIN, ADMIN_PERMISSIONS.
Qed.

Lemma granted_no_permission R p :
  p ∉ ADMIN_PERMISSIONS → ¬ granted R p.
Proof.
  intros Hp (r & ps & Hr & Hps & Hin).
  apply ROLE_PERMISSIONS_entries in Hps
    as [[-> ->]|[[-> ->]|[[-> ->]|[-> ->]]]].
  - done.
  - by apply Hp, organizer_permissions_are_admin_permissions.
  - by apply elem_of_nil in Hin.
  - by apply elem_of_nil in Hin.
Qed.

Lemma Ok_bool_iff (b : bool) (P : Prop) `{!Decision P} :
  (b = true ↔ P) → b = bool_decide P.
Proof.
  intros H. destruct b.
  - symmetry. apply bool_decide_eq_true_2. by apply H.
  - symmetry. apply bool_decide_eq_false_2. intros HP. by apply H in HP.
Qed.

Lemma hasPermission_organizer_level (R : list string) (p : string) :
  Forall (λ r, r ∉ Object_prototype_keys) R →
  p ∈ ORGANIZER_PERMISSIONS →
  hasPermission R p = Ok (isAdminOrOrganizer R).
Proof.
  intros HR Hp.
  destruct (hasPermission_own_keys R p HR) as (b & Hb & Hiff).
  rewrite Hb. f_equal. rewrite (granted_organizer_level R p Hp) in Hiff.
  rewrite (Ok_bool_iff _ _ Hiff). apply bool_decide_or.
Qed.

Lemma hasPermission_admin_level (R : list string) (p : string) :
  Forall (λ r, r ∉ Object_prototype_keys) R →
  admin_only p →
  hasPermission R p = Ok (isAdmin R).
Proof.
  intros HR Hp.
  destruct (hasPermission_own_keys R p HR) as (b & Hb & Hiff).
  rewrite Hb. f_equal. rewrite (granted_admin_only R p Hp) in Hiff.
  unfold isAdmin, hasRole, Array_includes. by apply Ok_bool_iff.
Qed.

Lemma hasPermission_unlisted (R : list string) (p : string) :
  Forall (λ r, r ∉ Object_prototype_keys) R →
  p ∉ ADMIN_PERMISSIONS →
  hasPermission R p = Ok false.
Proof.
  intros HR Hp.
  destruct (hasPermission_own_keys R p HR) as (b & Hb & Hiff).
  rewrite Hb. f_equal. destruct b; [|done].
  exfalso. apply (granted_no_permission R p Hp). by apply Hiff.
Qed.

(** X9: on role lists naming no property of [Object.prototype], the
    permission check is decided by the two role helpers: organizer-level
    permissions are exactly [isAdminOrOrganizer], permissions of the
    Administrator entry only are exactly [isAdmin], and everything else is
    refused. *)
Theorem hasPermission_by_role_helpers (R : list string) (p : string) :
  Forall (λ r, r ∉ Object_prototype_keys) R →
  (p ∈ ORGANIZER_PERMISSIONS →
   hasPermission R p = Ok (isAdminOrOrganizer R)) ∧
  (admin_only p → hasPermission R p = Ok (isAdmin R)) ∧
  (p ∉ ADMIN_PERMISSIONS → hasPermission R p = Ok false).
Proof.
  intros HR. split; [|split].
  - by apply hasPermission_organizer_level.
  - by apply hasPermission_admin_level.
  - by apply hasPermission_unlisted.
Qed.

Lemma admin_only_intro p :
  p ∈ ADMIN_PERMISSIONS → p ∉ ORGANIZER_PERMISSIONS → admin_only p.
Proof.
  intros Ha Ho. split; [done|]. intros r ps Hr Hps.
  apply ROLE_PERMISSIONS_entries in Hps
    as [[-> ->]|[[-> ->]|[[-> ->]|[-> ->]]]]; [done|done| |].
  all: apply not_elem_of_nil.
Qed.

Lemma hasPermission_by_role_helpers_witness :
  Forall (λ r, r ∉ Object_prototype_keys) [ROLES.VISITOR; ROLES.ORGANIZER] ∧
  (PERMISSIONS.EDIT_EVENT ∈ ORGANIZER_PERMISSIONS) ∧
  admin_only PERMISSIONS.APPROVE_EVENT ∧
  ("fly" ∉ ADMIN_PERMISSIONS) ∧
  hasPermission [ROLES.VISITOR; ROLES.ORGANIZER] PERMISSIONS.EDIT_EVENT
    = Ok true ∧
  hasPermission [ROLES.VISITOR; ROLES.ORGANIZER] PERMISSIONS.APPROVE_EVENT
    = Ok false ∧
  hasPermission [ROLES.VISITOR; ROLES.ORGANIZER] "fly" = Ok false.
Proof.
  assert (HR : Forall (λ r, r ∉ Object_prototype_keys)
                 [ROLES.VISITOR; ROLES.ORGANIZER])
    by (repeat constructor; by apply (bool_decide_unpack _)).
  assert (H1 : PERMISSIONS.EDIT_EVENT ∈ ORGANIZER_PERMISSIONS)
    by (by apply (bool_decide_unpack _)).
  assert (H3 : "fly" ∉ ADMIN_PERMISSIONS)
    by (by apply (bool_decide_unpack _)).
  destruct (hasPermission_by_role_helpers [ROLES.VISITOR; ROLES.ORGANIZER]
              PERMISSIONS.EDIT_EVENT HR) as (Ho & _ & _).
  destruct (hasPermission_by_role_helpers [ROLES.VISITOR; ROLES.ORGANIZER]
              PERMISSIONS.APPROVE_EVENT HR) as (_ & Ha & _).
  destruct (hasPermission_by_role_helpers [ROLES.VISITOR; ROLES.ORGANIZER]
              "fly" HR) as (_ & _ & Hn).
  split; [exact HR|]. split; [exact H1|].
  split; [exact approve_event_admin_only|]. split; [exact H3|].
  split; [exact (Ho H1)|].
  split; [exact (Ha approve_event_admin_only) | exact (Hn H3)].
Defined.

(** ** When the permission check throws *)

Lemma Array_some_throw {A} (f : A → Res bool) l err :
  Array_some f l = Throw err ↔
  ∃ l1 x l2, l = l1 ++ x :: l2 ∧
             Forall (λ y, f y = Ok false) l1 ∧ f x = Throw err.
Proof.
  induction l as [|x l IH]; simpl.
  - split; [done|]. intros (l1 & y & l2 & H & _). by destruct l1.
  - destruct (f x) as [[]|e] eqn:E.
    + split; [done|]. intros (l1 & y & l2 & H & Hl1 & Hy).
      destruct l1 as [|z l1]; simplify_eq/=; [congruence|].
      apply Forall_cons in Hl1 as [Hz _]. congruence.
    + rewrite IH. split.
      * intros (l1 & y & l2 & -> & Hl1 & Hy).
        exists (x :: l1), y, l2. split; [done|]. split; [by constructor|done].
      * intros (l1 & y & l2 & H & Hl1 & Hy).
        destruct l1 as [|z l1]; simplify_eq/=; [congruence|].
        apply Forall_cons in Hl1 as [_ Hl1]. by exists l1, y, l2.
    + split.
      * intros [= ->]. by exists [], x, l.
      * intros (l1 & y & l2 & H & Hl1 & Hy).
        destruct l1 as [|z l1]; simplify_eq/=; [congruence|].
        apply Forall_cons in Hl1 as [Hz _]. congruence.
Qed.

Lemma table_roles_not_inherited r ps :
  ROLE_PERMISSIONS !! r = Some ps → r ∉ Object_prototype_keys.
Proof.
  intros H. apply ROLE_PERMISSIONS_entries in H
    as [[-> ->]|[[-> ->]|[[-> ->]|[-> ->]]]].
  all: by apply (bool_decide_unpack _).
Qed.

Lemma role_grants_throw role p err :
  role_grants p role = Throw err ↔
  (role ∈ Object_prototype_keys) ∧
  err = TypeError "rolePermissions.includes is not a function".
Proof.
  unfold role_grants, JS.get.
  destruct (ROLE_PERMISSIONS !! role) as [ps|] eqn:E.
  - split; [done|]. intros [Hk _].
    by apply table_roles_not_inherited in E.
  - case_bool_decide.
    + split; [by intros [= <-]|]. by intros [_ ->].
    + split; [done|]. by intros [? _].
Qed.

Lemma role_grants_false role p :
  role_grants p role = Ok false ↔
  (role ∉ Object_prototype_keys) ∧ ¬ granted [role] p.
Proof.
  split.
  - intros H. split.
    + intros Hk.
      assert (role_grants p role =
                Throw (TypeError "rolePermissions.includes is not a function"))
        by (by apply role_grants_throw).
      congruence.
    + intros (r & ps & Hr & Hps & Hin).
      apply list_elem_of_singleton in Hr as ->.
      assert (role_grants p role = Ok true)
        by (apply role_grants_true; eauto).
      congruence.
  - intros [Hk Hng].
    destruct (role_grants p role) as [[]|err] eqn:E; [|done|].
    + exfalso. apply Hng. apply role_grants_true in E as (ps & ? & ?).
      exists role, ps. split; [by apply list_elem_of_singleton|done].
    + apply role_grants_throw in E as [? _]. done.
Qed.

(** X10: [hasPermission] throws exactly when a role named like a property of
    [Object.prototype] is reached before any role that grants the
    permission; the exception is always the same [TypeError]. *)
Theorem hasPermission_throws_iff (R : list string) (p : string) (err : Error) :
  hasPermission R p = Throw err ↔
  err = TypeError "rolePermissions.includes is not a function" ∧
  ∃ R1 r R2,
    R = R1 ++ r :: R2 ∧ (r ∈ Object_prototype_keys) ∧
    Forall (λ r', (r' ∉ Object_prototype_keys) ∧ ¬ granted [r'] p) R1.
Proof.
  unfold hasPermission. rewrite Array_some_throw. split.
  - intros (R1 & r & R2 & -> & HR1 & Hr).
    apply role_grants_throw in Hr as [Hr ->]. split; [done|].
    exists R1, r, R2. split; [done|]. split; [done|].
    eapply Forall_impl; [exact HR1|]. intros r' Hr'. simpl in Hr'.
    by apply role_grants_false.
  - intros (-> & R1 & r & R2 & -> & Hr & HR1).
    exists R1, r, R2. split; [done|]. split.
    + eapply Forall_impl; [exact HR1|]. intros r' Hr'. simpl in Hr'.
      by apply role_grants_false.
    + by apply role_grants_throw.
Qed.

(** X11: on role lists naming no property of [Object.prototype] the answer
    depends on the set of roles only: order and repetition are
    irrelevant. *)
Theorem hasPermission_same_roles (R R' : list string) (p : string) :
  Forall (λ r, r ∉ Object_prototype_keys) R →
  (∀ r, r ∈ R ↔ r ∈ R') →
  hasPermission R p = hasPermission R' p.
Proof.
  intros HR Hsame.
  assert (HR' : Forall (λ r, r ∉ Object_prototype_keys) R').
  { apply Forall_forall. intros r Hr. apply Hsame in Hr.
    by apply (proj1 (Forall_forall _ _) HR). }
  destruct (hasPermission_own_keys R p HR) as (b & -> & Hb).
  destruct (hasPermission_own_keys R' p HR') as (b' & -> & Hb').
  f_equal.
  assert (Hg : granted R p ↔ granted R' p).
  { unfold granted. split; intros (r & ps & Hr & ?); exists r, ps;
      (split; [by apply Hsame|done]). }
  destruct b, b'; try done.
  - symmetry. apply Hb', Hg, Hb. done.
  - apply Hb, Hg, Hb'. done.
Qed.

Lemma hasPermission_same_roles_witness :
  hasPermission [ROLES.VISITOR; ROLES.ADMIN; ROLES.VISITOR]
    PERMISSIONS.MANAGE_USERS
  = hasPermission [ROLES.ADMIN; ROLES.VISITOR] PERMISSIONS.MANAGE_USERS.
Proof.
  apply hasPermission_same_roles.
  - repeat constructor; by apply (bool_decide_unpack _).
  - intros r. rewrite !elem_of_cons, !elem_of_nil. tauto.
Defined.

(** X12: whatever role list answers [true], the Administrator role alone
    answers [true] as well; the Participant and Visitor roles grant
    nothing. *)
Theorem administrator_has_every_permission (R : list string) (p : string) :
  (hasPermission R p = Ok true → hasPermission [ROLES.ADMIN] p = Ok true) ∧
  hasPermission [ROLES.PARTICIPANT; ROLES.VISITOR] p = Ok false.
Proof.
  split.
  - intros H. apply hasPermission_true_granted in H as (r & ps & _ & Hps & Hin).
    assert (Hadm : p ∈ ADMIN_PERMISSIONS).
    { apply ROLE_PERMISSIONS_entries in Hps
        as [[-> ->]|[[-> ->]|[[-> ->]|[-> ->]]]]; [done| | |].
      - by apply organizer_permissions_are_admin_permissions.
      - by apply elem_of_nil in Hin.
      - by apply elem_of_nil in Hin. }
    unfold hasPermission. simpl.
    rewrite (role_grants_own ROLES.ADMIN ADMIN_PERMISSIONS) by done.
    by rewrite bool_decide_eq_true_2.
  - reflexivity.
Qed.

Lemma administrator_has_every_permission_witness :
  hasPermission [ROLES.ADMIN] PERMISSIONS.MARK_ATTENDANCE = Ok true.
Proof.
  destruct (administrator_has_every_permission
              [ROLES.PARTICIPANT; ROLES.ORGANIZER]
              PERMISSIONS.MARK_ATTENDANCE) as [H _].
  apply H. reflexivity.
Defined.

(** ** More on object spread *)

Lemma obj_set_same (o : Obj) k v :
  obj_get o k = Some v → obj_set o k v = o.
Proof.
  induction o as [|[k' v'] o IH]; simpl; [done|].
  destruct (decide (k = k')) as [->|Hne].
  - by intros [= ->].
  - intros H. by rewrite IH.
Qed.

Lemma keys_cons (kv : string * Value) (o : Obj) :
  keys (kv :: o) = kv.1 :: keys o.
Proof. reflexivity. Qed.

Lemma keys_obj_set (o : Obj) k v :
  keys (obj_set o k v) = if bool_decide (k ∈ keys o) then keys o
                         else keys o ++ [k].
Proof.
  induction o as [|[k' v'] o IH]; [done|].
  cbn [obj_set]. destruct (decide (k = k')) as [->|Hne].
  - rewrite !keys_cons. simpl. rewrite bool_decide_eq_true_2; [done|left].
  - rewrite !keys_cons, IH. simpl. case_bool_decide as Hin.
    + rewrite bool_decide_eq_true_2; [done|by right].
    + rewrite bool_decide_eq_false_2; [done|].
      intros H. apply elem_of_cons in H as [?|?]; done.
Qed.

Lemma obj_get_first (P : Obj) k v :
  NoDup (keys P) → (k, v) ∈ P → obj_get P k = Some v.
Proof.
  unfold keys. induction P as [|[k' v'] P IH]; simpl.
  - intros _ H. by apply elem_of_nil in H.
  - intros Hnd H. apply NoDup_cons in Hnd as [Hk' Hnd].
    apply elem_of_cons in H as [[= -> ->]|H].
    + by rewrite decide_True.
    + rewrite decide_False; [by apply IH|].
      intros ->. apply Hk'. apply list_elem_of_fmap. by exists (k', v).
Qed.

Lemma spread_fixed (o P : Obj) :
  (∀ k v, (k, v) ∈ P → obj_get o k = Some v) → spread o P = o.
Proof.
  unfold spread. induction P as [|[k v] P IH]; simpl; [done|].
  intros H. rewrite obj_set_same by (apply H; left).
  apply IH. intros k' v' Hin. apply H. by right.
Qed.

Lemma keys_spread_prefix (u P : Obj) : keys u `prefix_of` keys (spread u P).
Proof.
  unfold spread. revert u. induction P as [|[k v] P IH]; intros u; simpl.
  - done.
  - etrans; [|apply IH]. rewrite keys_obj_set.
    case_bool_decide; [done|]. by apply prefix_app_r.
Qed.

Lemma keys_spread_NoDup (u P : Obj) :
  NoDup (keys u) → NoDup (keys (spread u P)).
Proof.
  unfold spread. revert u. induction P as [|[k v] P IH]; intros u Hnd; simpl.
  - done.
  - apply IH. rewrite keys_obj_set. case_bool_decide as Hin; [done|].
    apply NoDup_app. split; [done|]. split.
    + intros x Hx Hx'. apply list_elem_of_singleton in Hx' as ->. done.
    + apply NoDup_singleton.
Qed.

Lemma filter_agree {A} (P1 P2 : A → Prop)
    `{!∀ x, Decision (P1 x)} `{!∀ x, Decision (P2 x)} (l : list A) :
  (∀ x, x ∈ l → P1 x ↔ P2 x) → filter P1 l = filter P2 l.
Proof.
  induction l as [|x l IH]; intros Hagree; [done|].
  assert (Hx : P1 x ↔ P2 x) by (apply Hagree; left).
  assert (Hl : filter P1 l = filter P2 l).
  { apply IH. intros y Hy. apply Hagree. by right. }
  destruct (decide (P1 x)) as [H1|H1].
  - rewrite !filter_cons_True by tauto. by rewrite Hl.
  - rewrite !filter_cons_False by tauto. exact Hl.
Qed.

Lemma keys_spread (u P : Obj) :
  NoDup (keys P) →
  keys (spread u P) = keys u ++ filter (λ k, k ∉ keys u) (keys P).
Proof.
  unfold spread. revert u. induction P as [|[k v] P IH]; intros u Hnd.
  - simpl. by rewrite app_nil_r.
  - rewrite keys_cons in Hnd. apply NoDup_cons in Hnd as [Hk Hnd].
    cbn [foldl fst snd]. rewrite IH by done. rewrite keys_obj_set, keys_cons.
    cbn [fst]. case_bool_decide as Hin.
    + rewrite filter_cons_False; [done|]. intros Hout. by apply Hout.
    + rewrite filter_cons_True by done.
      rewrite <- (assoc_L (++)). cbn [app]. do 2 f_equal.
      apply filter_agree. intros k' Hk'. rewrite elem_of_app.
      split; [tauto|]. intros Hout [?|Heq]; [done|].
      apply list_elem_of_singleton in Heq as ->. done.
Qed.

(** X13: for records whose property names are not integer-like (the names
    of a user record are not), where JavaScript keeps the own properties in
    the order of insertion: the merge [{ ...user, ...partial }] of
    [updateUser] keeps every field of the current user at its position,
    appends the new fields of the partial in the partial's order, and is
    idempotent: merging the same partial again changes nothing. *)
Theorem spread_keeps_and_repeats (u P : Obj) :
  NoDup (keys u) → NoDup (keys P) →
  Forall (λ k, integer_like k = false) (keys u ++ keys P) →
  keys (spread u P) = keys u ++ filter (λ k, k ∉ keys u) (keys P) ∧
  spread (spread u P) P = spread u P.
Proof.
  intros Hu HP _. split; [by apply keys_spread|].
  apply spread_fixed. intros k v Hin.
  rewrite obj_get_spread by done.
  by rewrite (obj_get_first P k v).
Qed.

Lemma spread_keeps_and_repeats_witness :
  NoDup (keys alice) ∧ NoDup (keys promotion) ∧
  Forall (λ k, integer_like k = false) (keys alice ++ keys promotion) ∧
  keys (spread alice promotion) = ["id"; "email"; "roles"; "is_active"] ∧
  spread (spread alice promotion) promotion = spread alice promotion.
Proof.
  assert (Hu : NoDup (keys alice))
    by (by apply (bool_decide_unpack _)).
  assert (HP : NoDup (keys promotion)) by apply NoDup_singleton.
  assert (Hnames : Forall (λ k, integer_like k = false)
                          (keys alice ++ keys promotion))
    by (repeat constructor).
  destruct (spread_keeps_and_repeats alice promotion Hu HP Hnames)
    as (Hkeys & Hagain).
  split; [exact Hu|]. split; [exact HP|]. split; [exact Hnames|].
  split; [exact Hkeys | exact Hagain].
Defined.

Ltac unfold_act :=
  unfold finally_, catch_, request, effect, in_world, of_res, raise,
    get_view, set_view, confirm, getAuthHeader,
    showToast_success, showToast_error, router_push, console_error, alert,
    mbind, Act_bind, mret, Act_ret in *;
  unfold_monad.

Lemma new_effects_app {B S} (s s' : Sys B S) (effs : list Effect) :
  effects s' = effects s ++ effs → new_effects s s' = effs.
Proof. intros H. unfold new_effects. rewrite H. by rewrite drop_app_length. Qed.

(** ** Reading the event out of a response *)

Lemma nullish_opt_prop_nullish v k :
  nullish v = true → opt_prop v k = VUndefined.
Proof. by destruct v. Qed.

Lemma opt_prop_obj o k v :
  obj_get o k = Some v → opt_prop (VObj o) k = v.
Proof. intros H. unfold opt_prop, prop. by rewrite H. Qed.

Lemma nullish_coalesce a b :
  nullish (coalesce a b) = nullish a && nullish b.
Proof. unfold coalesce. by destruct (nullish a) eqn:E. Qed.

Lemma unwrap_event_shapes (r : Value) :
  nullish (unwrap_event r) = nullish r ∧
  (∀ o d e,
     r = VObj o → obj_get o "data" = Some (VObj d) →
     obj_get d "event" = Some e → nullish e = false →
     unwrap_event r = e) ∧
  (∀ o d,
     r = VObj o → obj_get o "data" = Some d → nullish d = false →
     nullish (opt_prop d "event") = true →
     unwrap_event r = d).
Proof.
  split; [|split].
  - unfold unwrap_event. rewrite !nullish_coalesce.
    destruct r; simpl; by rewrite ?andb_false_r.
  - intros o d e -> Hd He Hne. unfold unwrap_event.
    rewrite (opt_prop_obj o "data" (VObj d)) by done.
    rewrite (opt_prop_obj d "event" e) by done.
    unfold coalesce. by rewrite !Hne.
  - intros o d -> Hd Hnd Hne. unfold unwrap_event.
    rewrite (opt_prop_obj o "data" d) by done.
    unfold coalesce. rewrite Hne. by rewrite !Hnd.
Qed.

(** ** The API wrappers *)

Section EventsApiFacts.
Context {B S : Type} `{!Builtins} `{!RestApi B}.

Lemma form_files_app f g : form_files (f ++ g) = form_files f ++ form_files g.
Proof. unfold form_files. apply omap_app. Qed.

Lemma form_files_gallery name files :
  form_files (map (λ file, (name, FFile file)) files) = files.
Proof.
  induction files as [|f files IH]; [done|].
  unfold form_files in *. simpl. f_equal. exact IH.
Qed.

(** X14: [createEventWithFiles] performs exactly one multipart POST on the
    events endpoint with the current auth header; the form names the eight
    text fields in a fixed order, then the featured image if there is one,
    then one [gallery_images[]] entry per gallery file, and carries exactly
    those files, in that order. *)
Theorem createEventWithFiles_sends_one_form
    (s : Sys B S) (eventData : CreateEventFormData) :
  let headers := tokenManager.getAuthHeader (env (world s)) in
  let form := create_form eventData in
  new_effects s (createEventWithFiles eventData s).2
    = [EPostForm events_url form headers] ∧
  form.*1 =
    ["title"; "description"; "date"; "time"; "venue"; "capacity";
     "max_participants"; "category_id"]
    ++ when (bool_decide (is_Some (cf_featured_image eventData)))
            "featured_image"
    ++ replicate (length (default [] (cf_gallery_images eventData)))
                 "gallery_images[]" ∧
  form_files form =
    option_list (cf_featured_image eventData)
    ++ default [] (cf_gallery_images eventData).
Proof.
  split; [|split].
  - unfold createEventWithFiles. unfold_act. simpl.
    destruct (apiPostForm _ _ _ _) as [[r|err] e']; simpl.
    all: apply new_effects_app; simpl; done.
  - unfold create_form.
    destruct (cf_featured_image eventData) as [file|],
             (cf_gallery_images eventData) as [files|]; simpl.
    all: rewrite ?fmap_app, ?app_nil_r; simpl; try done.
    all: repeat f_equal.
    all: induction files as [|f files IH]; simpl; [done|by rewrite IH].
  - unfold create_form.
    destruct (cf_featured_image eventData) as [file|],
             (cf_gallery_images eventData) as [files|]; simpl.
    all: rewrite ?form_files_app, ?form_files_gallery; simpl; done.
Qed.

(** X15: when the POST fulfils with [r], [createEventWithFiles] fulfils with
    a value that is nullish only if [r] is: the event of [{data: {event}}]
    when that is there, and the [data] of [{data}] when [data] has no
    [event]. *)
Theorem createEventWithFiles_result
    (s : Sys B S) (eventData : CreateEventFormData) (r : Value) (e' : Env B) :
  apiPostForm events_url (create_form eventData)
      (tokenManager.getAuthHeader (env (world s))) (env (world s))
    = (Ok r, e') →
  ∃ v s',
    createEventWithFiles eventData s = (Ok v, s') ∧
    nullish v = nullish r ∧
    (∀ o d e,
       r = VObj o → obj_get o "data" = Some (VObj d) →
       obj_get d "event" = Some e → nullish e = false → v = e) ∧
    (∀ o d,
       r = VObj o → obj_get o "data" = Some d → nullish d = false →
       nullish (opt_prop d "event") = true → v = d).
Proof.
  intros Hanswer. unfold createEventWithFiles. unfold_act. simpl.
  unfold tokenManager.getAuthHeader, tokenManager.get in *.
  rewrite Hanswer. simpl. do 2 eexists. split; [reflexivity|].
  apply unwrap_event_shapes.
Qed.


Lemma form_texts_app name f g :
  form_texts name (f ++ g) = form_texts name f ++ form_texts name g.
Proof. unfold form_texts. apply omap_app. Qed.

Lemma form_texts_append_text name name' text f :
  form_texts name (append_text name' text f) =
    form_texts name f
    ++ (if decide (name' = name) then option_list text else []).
Proof.
  destruct text as [t|]; simpl.
  - rewrite form_texts_app. f_equal. unfold form_texts. simpl.
    by destruct (decide (name' = name)).
  - destruct (decide (name' = name)); by rewrite app_nil_r.
Qed.

Lemma form_texts_files name name' files :
  form_texts name (map (λ file, (name', FFile file)) files) = [].
Proof.
  induction files as [|f files IH]; [done|].
  unfold form_texts in *. simpl. by destruct (decide (name' = name)).
Qed.

Lemma form_files_append_text name text f :
  form_files (append_text name text f) = form_files f.
Proof.
  destruct text; simpl; [|done]. rewrite form_files_app. simpl.
  apply app_nil_r.
Qed.

Lemma names_append_text name text (f : FormData) :
  (append_text name text f).*1 = f.*1 ++ when (bool_decide (is_Some text)) name.
Proof.
  destruct text; simpl.
  - by rewrite fmap_app.
  - by rewrite app_nil_r.
Qed.

(** The names [updateEventWithFiles] can put into a form. *)
Lemma update_form_names (eventData : UpdateEventFormData) name :
  name ∈ (update_form eventData).*1 →
  name ∈ ["title"; "description"; "date"; "time"; "venue"; "capacity";
          "max_participants"; "category_id"; "featured_image";
          "gallery_images[]"].
Proof.
  unfold update_form.
  destruct (uf_featured_image eventData), (uf_gallery_images eventData).
  all: rewrite ?fmap_app, !names_append_text; simpl.
  all: rewrite ?elem_of_app.
  all: intros Hin.
  all: repeat match goal with
       | H : _ ∨ _ |- _ => destruct H as [H|H]
       | H : _ ∈ when ?b _ |- _ => destruct b; simpl in H
       | H : _ ∈ [] |- _ => by apply elem_of_nil in H
       | H : _ ∈ [_] |- _ => apply list_elem_of_singleton in H as ->
       | H : _ ∈ (_ <$> _) |- _ =>
           apply list_elem_of_fmap in H as ([? ?] & -> & H)
       | H : _ ∈ map _ _ |- _ =>
           apply list_elem_of_fmap in H as (? & [= -> ->] & H)
       end.
  all: simpl; by apply (bool_decide_unpack _).
Qed.

(** X16: [updateEventWithFiles] performs exactly one multipart PUT on the
    event's endpoint; each text field is in the form exactly when it is
    defined in the update (an empty string included), the files are the
    featured image followed by the gallery, and the form never names
    [status] or [is_published]. *)
Theorem updateEventWithFiles_sends_defined_fields
    (s : Sys B S) (eventId : string) (eventData : UpdateEventFormData) :
  let headers := tokenManager.getAuthHeader (env (world s)) in
  let form := update_form eventData in
  new_effects s (updateEventWithFiles eventId eventData s).2
    = [EPutForm (event_url eventId) form headers] ∧
  form_texts "title" form = option_list (uf_title eventData) ∧
  form_texts "description" form = option_list (uf_description eventData) ∧
  form_texts "date" form = option_list (uf_date eventData) ∧
  form_texts "time" form = option_list (uf_time eventData) ∧
  form_texts "venue" form = option_list (uf_venue eventData) ∧
  form_texts "capacity" form
    = option_list (Number_toString <$> uf_capacity eventData) ∧
  form_texts "max_participants" form
    = option_list (Number_toString <$> uf_max_participants eventData) ∧
  form_texts "category_id" form = option_list (uf_category_id eventData) ∧
  form_files form =
    option_list (uf_featured_image eventData)
    ++ default [] (uf_gallery_images eventData) ∧
  ("status" ∉ form.*1) ∧ ("is_published" ∉ form.*1).
Proof.
  split.
  { unfold updateEventWithFiles. unfold_act. simpl.
    destruct (apiPutForm _ _ _ _) as [[r|err] e']; simpl.
    all: apply new_effects_app; simpl; done. }
  assert (Htexts : ∀ name,
            form_texts name (update_form eventData) =
              (if decide ("title" = name)
               then option_list (uf_title eventData) else [])
              ++ (if decide ("description" = name)
                  then option_list (uf_description eventData) else [])
              ++ (if decide ("date" = name)
                  then option_list (uf_date eventData) else [])
              ++ (if decide ("time" = name)
                  then option_list (uf_time eventData) else [])
              ++ (if decide ("venue" = name)
                  then option_list (uf_venue eventData) else [])
              ++ (if decide ("capacity" = name)
                  then option_list (Number_toString <$> uf_capacity eventData)
                  else [])
              ++ (if decide ("max_participants" = name)
                  then option_list
                         (Number_toString <$> uf_max_participants eventData)
                  else [])
              ++ (if decide ("category_id" = name)
                  then option_list (uf_category_id eventData) else [])).
  { intros name. unfold update_form.
    destruct (uf_featured_image eventData), (uf_gallery_images eventData).
    all: rewrite ?form_texts_app, ?form_texts_files.
    all: rewrite !form_texts_append_text.
    all: rewrite ?(form_texts_files name "featured_image" [_]).
    all: change (form_texts name []) with (@nil string).
    all: rewrite ?app_nil_r, <- ?(assoc_L (++)); simpl.
    all: rewrite ?app_nil_r. all: try done.
    all: destruct (decide ("featured_image" = name)); simpl.
    all: by rewrite ?app_nil_r. }
  repeat split.
  1-8: rewrite Htexts; simpl; by rewrite ?app_nil_r.
  - unfold update_form.
    destruct (uf_featured_image eventData), (uf_gallery_images eventData).
    all: rewrite ?form_files_app, ?form_files_gallery.
    all: rewrite !form_files_append_text; simpl; done.
  - intros Hin. apply update_form_names in Hin.
    by apply (bool_decide_pack _) in Hin.
  - intros Hin. apply update_form_names in Hin.
    by apply (bool_decide_pack _) in Hin.
Qed.

Lemma names_append_num name n (q : list (string * string)) :
  (append_num name n q).*1 = q.*1 ++ when (truthy_num n) name.
Proof.
  destruct n as [n|]; simpl; [|by rewrite app_nil_r].
  case_bool_decide; simpl; [by rewrite fmap_app|by rewrite app_nil_r].
Qed.

Lemma names_append_str name text (q : list (string * string)) :
  (append_str name text q).*1 = q.*1 ++ when (truthy_opt text) name.
Proof.
  destruct text as [t|]; simpl; [|by rewrite app_nil_r].
  destruct (truthy t); simpl; [by rewrite fmap_app|by rewrite app_nil_r].
Qed.

Lemma truthy_append a b : truthy a = true → truthy (a +:+ b) = true.
Proof. by destruct a. Qed.

Lemma truthy_pair a b : truthy (a +:+ "=" +:+ b) = true.
Proof. destruct a; reflexivity. Qed.

Lemma truthy_concat sep x xs :
  truthy x = true → truthy (String.concat sep (x :: xs)) = true.
Proof.
  intros Hx. destruct xs; simpl; [done|]. by apply truthy_append.
Qed.

Lemma with_query_spec base (q : list (string * string)) :
  with_query base (URLSearchParams_toString q) =
    match q with
    | [] => base
    | _ => base +:+ "?" +:+ URLSearchParams_toString q
    end.
Proof.
  unfold with_query. destruct q as [|kv q].
  - change (base +:+ "" = base).
    induction base as [|c base IH]; [done|].
    change (String c (base +:+ "") = String c base). by rewrite IH.
  - unfold URLSearchParams_toString. rewrite fmap_cons.
    fold (URLSearchParams_toString q).
    rewrite truthy_concat; [done|apply truthy_pair].
Qed.

(** X17: [getEvents] performs exactly one GET; the query names exactly the
    truthy parameters (a page 0 and an empty string are dropped), in the
    order page, per_page, status, organizer_id, search, and the URL has no
    question mark when nothing is left. *)
Theorem getEvents_sends_truthy_parameters
    (s : Sys B S) (params : option EventsParams) :
  let headers := tokenManager.getAuthHeader (env (world s)) in
  let query := events_query params in
  let url :=
    match query with
    | [] => events_url
    | _ => events_url +:+ "?" +:+ URLSearchParams_toString query
    end in
  new_effects s (getEvents params s).2 = [EGet url headers] ∧
  query.*1 =
    when (truthy_num (params ≫= ep_page)) "page"
    ++ when (truthy_num (params ≫= ep_per_page)) "per_page"
    ++ when (truthy_opt (params ≫= ep_status)) "status"
    ++ when (truthy_opt (params ≫= ep_organizer_id)) "organizer_id"
    ++ when (truthy_opt (params ≫= ep_search)) "search".
Proof.
  split.
  - unfold getEvents. rewrite with_query_spec. unfold_act. simpl.
    destruct (apiGet _ _ _) as [[r|err] e']; simpl.
    all: try (destruct (prop r "data")); simpl.
    all: apply new_effects_app; simpl; done.
  - unfold events_query.
    rewrite !names_append_str, !names_append_num. simpl.
    by rewrite <- !(assoc_L (++)).
Qed.

(** X18: [getUsers] performs exactly one GET; the query names exactly the
    truthy parameters, in the order page, per_page, role_filter,
    status_filter, search, and the URL has no question mark when nothing is
    left. *)
Theorem getUsers_sends_truthy_parameters
    (s : Sys B S) (params : option UsersParams) :
  let headers := tokenManager.getAuthHeader (env (world s)) in
  let query := users_query params in
  let url :=
    match query with
    | [] => users_url
    | _ => users_url +:+ "?" +:+ URLSearchParams_toString query
    end in
  new_effects s (getUsers params s).2 = [EGet url headers] ∧
  query.*1 =
    when (truthy_num (params ≫= up_page)) "page"
    ++ when (truthy_num (params ≫= up_per_page)) "per_page"
    ++ when (truthy_opt (params ≫= up_role_filter)) "role_filter"
    ++ when (truthy_opt (params ≫= up_status_filter)) "status_filter"
    ++ when (truthy_opt (params ≫= up_search)) "search".
Proof.
  split.
  - unfold getUsers. rewrite with_query_spec. unfold_act. simpl.
    destruct (apiGet _ _ _) as [[r|err] e']; simpl.
    all: try (destruct (prop r "data")); simpl.
    all: apply new_effects_app; simpl; done.
  - unfold users_query.
    rewrite !names_append_str, !names_append_num. simpl.
    by rewrite <- !(assoc_L (++)).
Qed.

(** X19: the request [loadEvents] of the events page makes always carries
    [per_page], carries [page] unless the current page is 0, [status] unless
    the filter is empty or "all", and [search] unless the search box is
    empty. *)
Theorem loadEvents_query_names (currentPage : Z) (searchTerm statusFilter : string) :
  (events_query (Some (loadEvents_params currentPage searchTerm statusFilter))).*1
  = when (bool_decide (currentPage ≠ 0%Z)) "page"
    ++ ["per_page"]
    ++ when (truthy statusFilter && bool_decide (statusFilter ≠ "all"))
            "status"
    ++ when (truthy searchTerm) "search".
Proof.
  unfold events_query.
  rewrite !names_append_str, !names_append_num. simpl.
  unfold or_undefined.
  destruct (truthy searchTerm) eqn:Hsearch;
    destruct (decide (statusFilter = "all")) as [->|Hne].
  1,3: rewrite (bool_decide_eq_true_2 ("all" = "all")) by done;
       rewrite (bool_decide_eq_false_2 ("all" ≠ "all")) by (by intros ?).
  3,4: rewrite (bool_decide_eq_false_2 (statusFilter = "all")) by done;
       rewrite (bool_decide_eq_true_2 (statusFilter ≠ "all")) by done;
       destruct (truthy statusFilter) eqn:Hstatus.
  all: simpl; rewrite ?Hsearch, ?Hstatus; simpl.
  all: by rewrite ?app_nil_r, <- ?(assoc_L (++)).
Qed.

(** X20: when the GET fulfils, [getEventDetails] leaves the environment as
    the request left it and fulfils with [response.data.event] (possibly
    [undefined]); it rejects with a [TypeError] when the response or its
    [data] is null or undefined. *)
Theorem getEventDetails_outcomes
    (s : Sys B S) (eventId : string) (r : Value) (e' : Env B) :
  apiGet (event_url eventId) (tokenManager.getAuthHeader (env (world s)))
      (env (world s)) = (Ok r, e') →
  let out := getEventDetails eventId s in
  env (world out.2) = e' ∧
  if nullish r || nullish (opt_prop r "data") then
    ∃ text, out.1 = Throw (TypeError text)
  else
    out.1 = Ok (opt_prop (opt_prop r "data") "event").
Proof.
  intros Hanswer. unfold getEventDetails. unfold_act. simpl.
  unfold tokenManager.getAuthHeader, tokenManager.get in *.
  rewrite Hanswer. simpl.
  destruct r as [| | | | | |o]; simpl; try (split; [done|by eexists]).
  unfold opt_prop. simpl.
  destruct (obj_get o "data") as [[| | | | | |d]|]; simpl.
  all: split; [done|]; try done; by eexists.
Qed.

End EventsApiFacts.

(** ** [CreateEventPage.handleSubmit] *)

Section CreateEventPageFacts.
Context {B : Type} `{!Builtins} `{!RestApi B}.

Lemma form_valid_checks (formData : CreateEventFormData) :
  form_valid formData ↔
  truthy (String_trim (cf_title formData)) = true ∧
  truthy (String_trim (cf_description formData)) = true ∧
  truthy (cf_date formData) = true ∧
  truthy (cf_time formData) = true ∧
  truthy (String_trim (cf_venue formData)) = true ∧
  negb (bool_decide (cf_capacity formData ≤ 0)%Z) = true ∧
  negb (bool_decide (cf_max_participants formData ≤ 0)%Z) = true ∧
  negb (bool_decide (cf_max_participants formData > cf_capacity formData)%Z)
    = true.
Proof.
  unfold form_valid. rewrite !negb_true_iff, !bool_decide_eq_false. split.
  - intros (?&?&?&?&?&?). repeat split; try done; lia.
  - intros (?&?&?&?&?&?&?&?). repeat split; try done; lia.
Qed.

(** X21: [handleSubmit] never throws and ends with the loading flag off.  A
    form that passes the eight checks leads to exactly one request, the
    multipart POST of that form, and the page moves to [/events] exactly
    when [createEventWithFiles] fulfils.  A form that fails a check leads to
    no request at all: one error toast with one of the eight messages, and
    nothing else. *)
Theorem handleSubmit_sends_only_valid_forms
    (s : Sys B bool) (formData : CreateEventFormData) :
  let headers := tokenManager.getAuthHeader (env (world s)) in
  let post := EPostForm events_url (create_form formData) headers in
  let s' := (handleSubmit formData s).2 in
  (handleSubmit formData s).1 = Ok () ∧
  view s' = false ∧
  (form_valid formData →
   requests (new_effects s s') = [post] ∧
   (EPush "/events" ∈ new_effects s s' ↔
    ∃ r, (createEventWithFiles formData s).1 = Ok r)) ∧
  (¬ form_valid formData →
   world s' = world s ∧
   ∃ text, text ∈ validation_messages ∧
           new_effects s s' = [EToastError text]).
Proof.
  simpl. rewrite form_valid_checks.
  unfold handleSubmit, validate_form, setLoading, require,
    createEventWithFiles.
  unfold_act. simpl.
  unfold tokenManager.getAuthHeader, tokenManager.get.
  repeat (case_on_scrutinee; simpl).
  all: (split; [done|]); (split; [done|]); split.
  all: try (intros (?&?&?&?&?&?&?&?); congruence).
  all: try (intros Hinvalid; exfalso; apply Hinvalid; by repeat split).
  all: intros _.
  all: erewrite !new_effects_app;
         [|simpl; rewrite <- ?(assoc_L (++)); reflexivity..].
  all: try (split; [done|]; eexists; split; [|reflexivity];
            unfold validation_messages; find_call).
  all: split; [done|]; simpl.
  all: try (split; [by eexists|]; intros _; find_call).
  all: split; [|by intros [? ?]]; intros Hin; exfalso.
  all: repeat (apply elem_of_cons in Hin as [Hin|Hin]; [done|]).
  all: by apply elem_of_nil in Hin.
Qed.

End CreateEventPageFacts.

(** ** [EventDetailsPage] *)

Section EventDetailsFacts.
Context {B : Type} `{!Builtins} `{!RestApi B} `{!HttpApi B}.

Ltac unfold_page :=
  unfold handleApproveEvent, handleDeclineEvent, handlePublishToggle,
    handleDeleteEvent, setEvent, setActionLoading, id_text,
    approveEvent, publishEvent, deleteEvent;
  unfold_act; simpl.

(** X22: declining and deleting do nothing without a loaded event, and
    after a dismissed confirmation dialog they have asked their question and
    done nothing else: no request, no state change. *)
Theorem destructive_actions_are_guarded (s : Sys B EventDetails) :
  (ed_event (view s) = None →
   handleDeclineEvent s = (Ok (), s) ∧ handleDeleteEvent s = (Ok (), s)) ∧
  (is_Some (ed_event (view s)) → head (answers s) ≠ Some true →
   let s1 := (handleDeclineEvent s).2 in
   let s2 := (handleDeleteEvent s).2 in
   view s1 = view s ∧ world s1 = world s ∧
   new_effects s s1 = [EConfirm decline_question] ∧
   view s2 = view s ∧ world s2 = world s ∧
   new_effects s s2 = [EConfirm delete_question]).
Proof.
  split.
  - intros Hnone. unfold_page. rewrite Hnone. by destruct s.
  - intros [ev Hev] Hno. unfold_page. rewrite Hev. simpl.
    assert (Hanswer : default false (head (answers s)) = false).
    { destruct (answers s) as [|[] ?]; simpl in *; done. }
    rewrite Hanswer. simpl.
    repeat split; by apply new_effects_app.
Qed.

Lemma obj_get_spread_one (event : Obj) key value k :
  obj_get (spread event [(key, value)]) k =
    if decide (k = key) then Some value else obj_get event k.
Proof.
  rewrite obj_get_spread by apply NoDup_singleton. simpl.
  by destruct (decide (k = key)).
Qed.

(** X23: once confirmed, and for an event whose [id] a template literal
    prints as [eventId] (a string id prints as itself), [handleDeclineEvent]
    runs [declineEvent] on [eventId], never throws and ends with the action
    flag off; when the call fulfils the shown event has status "cancelled"
    and a success toast follows, when it rejects the event is unchanged, the
    error is logged and shown. *)
Theorem handleDeclineEvent_outcomes (s : Sys B EventDetails) (event : Obj)
    (eventId : string) :
  ed_event (view s) = Some event → head (answers s) = Some true →
  ToString (event_id event) = Ok eventId →
  let out := declineEvent eventId (world s) in
  let s' := (handleDeclineEvent s).2 in
  (handleDeclineEvent s).1 = Ok () ∧
  world s' = out.2 ∧
  ed_actionLoading (view s') = false ∧
  match out.1 with
  | Ok _ =>
      ed_event (view s')
        = Some (spread event [("status", VStr "cancelled")]) ∧
      new_effects s s' =
        [EConfirm decline_question;
         EToastSuccess "Event declined successfully"]
  | Throw err =>
      ed_event (view s') = Some event ∧
      new_effects s s' =
        [EConfirm decline_question; EConsoleError "Decline event error:";
         EToastError (error_text err "Failed to decline event")]
  end.
Proof.
  intros Hev Hyes Hid. unfold_page. rewrite Hev. simpl. rewrite Hyes. simpl.
  rewrite Hid. simpl.
  destruct (declineEvent eventId (world s)) as [[[]|err] w'] eqn:E; simpl.
  all: repeat split; try done.
  all: apply new_effects_app; simpl; by rewrite <- ?(assoc_L (++)).
Qed.

(** X24: for an event whose [id] a template literal prints as [eventId],
    [handleApproveEvent] makes exactly one request, the POST on
    [/api/v1/admin/events/eventId/approve], never throws and ends with the
    action flag off; when the call fulfils the shown event differs from the
    old one in [status] only, now "approved"; when it rejects the event is
    unchanged and the error is shown. *)
Theorem handleApproveEvent_outcomes (s : Sys B EventDetails) (event : Obj)
    (eventId : string) :
  ed_event (view s) = Some event →
  ToString (event_id event) = Ok eventId →
  let url := event_url eventId +:+ "/approve" in
  let headers := tokenManager.getAuthHeader (env (world s)) in
  let answer := (apiPost url VUndefined headers (env (world s))).1 in
  let s' := (handleApproveEvent s).2 in
  (handleApproveEvent s).1 = Ok () ∧
  ed_actionLoading (view s') = false ∧
  requests (new_effects s s') = [EPost url VUndefined headers] ∧
  match answer with
  | Ok _ =>
      ∃ event',
        ed_event (view s') = Some event' ∧
        ∀ k, obj_get event' k =
               if decide (k = "status") then Some (VStr "approved")
               else obj_get event k
  | Throw err =>
      ed_event (view s') = Some event ∧
      EToastError (error_text err "Failed to approve event")
        ∈ new_effects s s'
  end.
Proof.
  intros Hev Hid. unfold_page. rewrite Hev. simpl. rewrite Hid. simpl.
  unfold tokenManager.getAuthHeader, tokenManager.get.
  destruct (apiPost _ _ _ _) as [[r|err] e'] eqn:E; simpl.
  all: erewrite !new_effects_app;
         [|simpl; rewrite <- ?(assoc_L (++)); reflexivity..].
  all: repeat split; try done.
  - eexists. split; [reflexivity|]. intros k. apply obj_get_spread_one.
  - find_call.
Qed.

(** X25: for an event whose [id] a template literal prints as [eventId]:
    when the POST on [/api/v1/admin/events/eventId/publish] fulfils,
    [handlePublishToggle] flips [is_published] of the shown event (a missing
    flag counts as unpublished), keeps every other field, and the toast names
    the new state. *)
Theorem handlePublishToggle_flips (s : Sys B EventDetails) (event : Obj)
    (eventId : string) (r : Value) (e' : Env B) :
  ed_event (view s) = Some event →
  ToString (event_id event) = Ok eventId →
  apiPost (event_url eventId +:+ "/publish") VUndefined
      (tokenManager.getAuthHeader (env (world s))) (env (world s))
    = (Ok r, e') →
  let was := truthy_value (default VUndefined (obj_get event "is_published")) in
  let s' := (handlePublishToggle s).2 in
  ∃ event',
    ed_event (view s') = Some event' ∧
    obj_get event' "is_published" = Some (VBool (negb was)) ∧
    (∀ k, k ≠ "is_published" → obj_get event' k = obj_get event k) ∧
    EToastSuccess
      ("Event " +:+ (if was then "unpublished" else "published")
       +:+ " successfully") ∈ new_effects s s'.
Proof.
  intros Hev Hid Hanswer. unfold_page. rewrite Hev. simpl. rewrite Hid. simpl.
  unfold tokenManager.getAuthHeader, tokenManager.get in *.
  rewrite Hanswer. simpl.
  eexists. split; [reflexivity|].
  assert (Hwas : truthy_value
                   (coalesce (default VUndefined (obj_get event "is_published"))
                             (VBool false))
                 = truthy_value
                     (default VUndefined (obj_get event "is_published"))).
  { unfold coalesce.
    by destruct (default VUndefined (obj_get event "is_published")). }
  split; [|split].
  - rewrite Hwas. apply obj_get_set_eq.
  - intros k Hk. by apply obj_get_set_ne.
  - erewrite new_effects_app;
      [|simpl; rewrite <- ?(assoc_L (++)); reflexivity].
    destruct (truthy_value (default VUndefined
                              (obj_get event "is_published")));
      simpl; find_call.
Qed.

End EventDetailsFacts.

(** ** [FileUpload] *)

Section FileUploadFacts.
Context {B S : Type} `{!Builtins}.

Lemma with_effects_nil (s : Sys B S) : with_effects s [] = s.
Proof. destruct s. unfold with_effects. simpl. by rewrite app_nil_r. Qed.

Lemma with_effects_app (s : Sys B S) effs effs' :
  with_effects (with_effects s effs) effs' = with_effects s (effs ++ effs').
Proof. unfold with_effects. simpl. by rewrite (assoc_L (++)). Qed.

Lemma check_file_spec (props : UploadProps) (file : File) (s : Sys B S) :
  matchable props file →
  ∃ effs,
    check_file props file s
      = (Ok (if passes props file then Some file else None),
         with_effects s effs) ∧
    files_changes effs = [] ∧
    length (alerts effs) = (if passes props file then 0 else 1)%nat.
Proof.
  intros [matched Hm]. unfold check_file, passes. rewrite Hm.
  unfold_act. unfold with_effects.
  case_bool_decide; simpl.
  - by eexists [_].
  - case_bool_decide; simpl.
    + destruct matched; simpl.
      * exists []. by rewrite app_nil_r; destruct s.
      * by eexists [_].
    + exists []. by rewrite app_nil_r; destruct s.
Qed.

Lemma check_files_spec (props : UploadProps) (fileArray : list File)
    (s : Sys B S) :
  Forall (matchable props) fileArray →
  ∃ effs,
    check_files props fileArray s
      = (Ok (filter (λ file, passes props file) fileArray),
         with_effects s effs) ∧
    files_changes effs = [] ∧
    (length (alerts effs)
       + length (filter (λ file, passes props file) fileArray)
     = length fileArray)%nat.
Proof.
  intros Hall. revert s.
  induction Hall as [|file rest Hfile _ IH]; intros s.
  - exists []. by rewrite with_effects_nil.
  - destruct (check_file_spec props file s Hfile) as (effs1 & H1 & Hc1 & Ha1).
    destruct (IH (with_effects s effs1)) as (effs2 & H2 & Hc2 & Ha2).
    exists (effs1 ++ effs2).
    cbn [check_files]. unfold mbind, Act_bind at 1. rewrite H1.
    unfold mbind, Act_bind at 1. rewrite H2. unfold mret, Act_ret.
    rewrite with_effects_app. split; [|split].
    + f_equal. f_equal. destruct (passes props file) eqn:Hp; simpl.
      * rewrite filter_cons_True; [done|by apply Is_true_true].
      * rewrite filter_cons_False; [done|by apply Is_true_false].
    + unfold files_changes in *. by rewrite omap_app, Hc1, Hc2.
    + unfold alerts in *. rewrite omap_app, length_app.
      destruct (passes props file) eqn:Hp; simpl.
      * rewrite filter_cons_True by (by apply Is_true_true). simpl. lia.
      * rewrite filter_cons_False by (by apply Is_true_false). lia.
Qed.

Lemma passes_acceptable (props : UploadProps) (file : File) :
  passes props file = true → acceptable props file.
Proof.
  unfold passes, acceptable. intros Hp.
  apply andb_true_iff in Hp as [Hsize Htype].
  apply negb_true_iff, bool_decide_eq_false in Hsize. split; [lia|].
  intros Hne. apply orb_true_iff in Htype as [Htype|Htype].
  - by apply negb_true_iff, bool_decide_eq_false in Htype.
  - by destruct (String_match _ _) as [[]|].
Qed.

(** X26: [handleFileSelect] calls [onFilesChange] exactly once: with the
    current files followed by the valid ones when [multiple] is set, with the
    first valid file only (or none) otherwise.  Every selected file is either
    reported or answered with one alert, and every reported file is within the
    size limit and matches the accepted type. *)
Theorem handleFileSelect_reports_valid_files
    (props : UploadProps) (selected : list File) (s : Sys B S) :
  Forall (matchable props) selected →
  let valid := filter (λ file, passes props file) selected in
  let s' := (handleFileSelect props (Some selected) s).2 in
  (handleFileSelect props (Some selected) s).1 = Ok () ∧
  files_changes (new_effects s s')
    = [if multiple props then files props ++ valid else take 1 valid] ∧
  (length (alerts (new_effects s s')) + length valid = length selected)%nat ∧
  Forall (acceptable props) valid.
Proof.
  intros Hall valid s'.
  destruct (check_files_spec props selected s Hall) as (effs & Hrun & Hc & Ha).
  fold valid in Hrun, Ha.
  assert (Hfull :
    handleFileSelect props (Some selected) s =
      (Ok (),
       with_effects s
         (effs ++ [EFilesChange (if multiple props then files props ++ valid
                                 else take 1 valid)]))).
  { unfold handleFileSelect. unfold mbind, Act_bind. rewrite Hrun.
    unfold onFilesChange, effect. rewrite <- with_effects_app.
    by destruct (multiple props). }
  subst s'. rewrite Hfull. simpl.
  erewrite new_effects_app; [|reflexivity].
  split; [done|].
  unfold files_changes, alerts in *. rewrite !omap_app, ?length_app.
  rewrite Hc. simpl.
  split; [done|]. split; [lia|].
  apply Forall_forall. intros file Hin.
  apply list_elem_of_filter in Hin as [Hp _].
  apply passes_acceptable. by apply Is_true_true.
Qed.

Lemma omap_imap_keep (keep : nat → bool) (l : list File) :
  (∀ i, keep i = true) →
  omap id (imap (λ i file, if keep i then Some file else None) l) = l.
Proof.
  revert keep. induction l as [|file l IH]; intros keep Hkeep; [done|].
  rewrite imap_cons. simpl. rewrite Hkeep. simpl. f_equal.
  apply (IH (keep ∘ Datatypes.S)). intros i. apply Hkeep.
Qed.

Lemma without_index_delete (index : nat) (l : list File) :
  without_index index l = delete index l.
Proof.
  unfold without_index. revert index.
  induction l as [|file l IH]; intros index; [done|].
  rewrite imap_cons. destruct index as [|index]; simpl.
  - apply (omap_imap_keep (λ i, bool_decide (Datatypes.S i ≠ 0))).
    intros i. by apply bool_decide_eq_true_2.
  - f_equal. rewrite <- IH. f_equal. apply imap_ext. intros i x _. simpl.
    by repeat case_bool_decide; try lia.
Qed.

(** X27: [removeFile] reports the current files without the file at the
    index: one file fewer for an index in range, the same files for an index
    out of range. *)
Theorem removeFile_deletes_one
    (props : UploadProps) (index : nat) (s : Sys B S) :
  let s' := (removeFile props index s).2 in
  new_effects s s' = [EFilesChange (delete index (files props))] ∧
  ((index < length (files props))%nat →
   length (delete index (files props)) = (length (files props) - 1)%nat) ∧
  ((length (files props) ≤ index)%nat →
   delete index (files props) = files props).
Proof.
  simpl. split; [|split].
  - unfold removeFile, onFilesChange, effect. rewrite without_index_delete.
    by apply new_effects_app.
  - intros Hlt. apply length_delete. by apply lookup_lt_is_Some.
  - intros Hge. rewrite delete_take_drop.
    rewrite take_ge, drop_ge by lia. apply app_nil_r.
Qed.

End FileUploadFacts.

Lemma check_file_frame {B S} `{!Builtins}
    (props : UploadProps) (file : File) (s : Sys B S) :
  let s' := (check_file props file s).2 in
  view s' = view s ∧ world s' = world s ∧ answers s' = answers s.
Proof.
  unfold check_file. unfold_act.
  repeat (case_on_scrutinee; simpl); done.
Qed.

Lemma check_files_frame {B S} `{!Builtins}
    (props : UploadProps) (fileArray : list File) (s : Sys B S) :
  let s' := (check_files props fileArray s).2 in
  view s' = view s ∧ world s' = world s ∧ answers s' = answers s.
Proof.
  revert s. induction fileArray as [|file rest IH]; intros s; [done|].
  cbn [check_files]. unfold mbind, Act_bind, mret, Act_ret.
  pose proof (check_file_frame props file s) as Hfile.
  destruct (check_file props file s) as [[checked|err] s1]; simpl in *;
    [|done].
  specialize (IH s1).
  destruct (check_files props rest s1) as [[validFiles|err] s2]; simpl in *.
  all: destruct Hfile as (Hv & Hw & Ha), IH as (Hv' & Hw' & Ha').
  all: repeat split; congruence.
Qed.

(** X28: a drop always clears the drag highlight and never touches the
    authentication state; on a disabled upload it does nothing else (no
    file is checked, no alert shown, [onFilesChange] is not called), on an
    enabled one it goes on exactly as [handleFileSelect] does on the dropped
    files. *)
Theorem handleDrop_outcomes {B} `{!Builtins}
    (props : UploadProps) (dropped : option (list File)) (s : Sys B bool) :
  let s0 := {| view := false; world := world s; answers := answers s;
               effects := effects s |} in
  let s' := (handleDrop props dropped s).2 in
  view s' = false ∧ world s' = world s ∧
  (disabled props = true → handleDrop props dropped s = (Ok (), s0)) ∧
  (disabled props = false →
   handleDrop props dropped s = handleFileSelect props dropped s0).
Proof.
  simpl. unfold handleDrop. unfold mbind, Act_bind at 1. unfold set_view.
  destruct (disabled props); simpl.
  - by repeat split.
  - split; [|split; [|done]].
    all: destruct dropped as [fileArray|]; [|done].
    all: unfold handleFileSelect; unfold mbind, Act_bind.
    all: match goal with
         | |- context [check_files ?p ?l ?s0] =>
             pose proof (check_files_frame p l s0) as Hframe;
             destruct (check_files p l s0) as [[valid|err] s1]
         end; simpl in *.
    all: destruct Hframe as (Hview & Hworld & _).
    all: unfold onFilesChange, effect; by destruct (multiple props).
Qed.

(** ** [DashSidebar] *)

Lemma view_all_events_organizer_level :
  PERMISSIONS.VIEW_ALL_EVENTS ∈ ORGANIZER_PERMISSIONS.
Proof. by apply (bool_decide_unpack _). Qed.

Lemma manage_users_admin_only : admin_only PERMISSIONS.MANAGE_USERS.
Proof. apply admin_only_intro; by apply (bool_decide_unpack _). Qed.

Lemma system_settings_admin_only : admin_only PERMISSIONS.SYSTEM_SETTINGS.
Proof. apply admin_only_intro; by apply (bool_decide_unpack _). Qed.

(** X29: for a user whose roles name no property of [Object.prototype], the
    sidebar always shows Dashboard, shows Events and Feedbacks exactly to
    administrators and organizers, and Users and Settings exactly to
    administrators, in the order of the menu data. *)
Theorem sidebar_groups_by_role (pathname : string) (R : list string) :
  Forall (λ r, r ∉ Object_prototype_keys) R →
  ∃ groups,
    getFilteredNavItems pathname (Some R) = Ok groups ∧
    titles (g_navMain groups) = ["Dashboard"] ∧
    titles (g_navContents groups) =
      when (isAdminOrOrganizer R) "Events"
      ++ when (isAdmin R) "Users"
      ++ when (isAdminOrOrganizer R) "Feedbacks" ∧
    titles (g_navUtils groups) = when (isAdmin R) "Settings".
Proof.
  intros HR.
  pose proof (hasPermission_organizer_level R PERMISSIONS.VIEW_ALL_EVENTS HR
                view_all_events_organizer_level) as Hevents.
  pose proof (hasPermission_admin_level R PERMISSIONS.MANAGE_USERS HR
                manage_users_admin_only) as Husers.
  pose proof (hasPermission_admin_level R PERMISSIONS.SYSTEM_SETTINGS HR
                system_settings_admin_only) as Hsettings.
  unfold getFilteredNavItems, navContents, navUtils, content_visible,
    util_visible. simpl.
  rewrite Hevents, Husers, Hsettings.
  eexists. split; [reflexivity|]. simpl.
  by destruct (isAdminOrOrganizer R), (isAdmin R).
Qed.

Lemma sidebar_groups_by_role_witness :
  Forall (λ r, r ∉ Object_prototype_keys) [ROLES.ORGANIZER] ∧
  ∃ groups,
    getFilteredNavItems "/events" (Some [ROLES.ORGANIZER]) = Ok groups ∧
    titles (g_navContents groups) = ["Events"; "Feedbacks"] ∧
    titles (g_navUtils groups) = [].
Proof.
  assert (HR : Forall (λ r, r ∉ Object_prototype_keys) [ROLES.ORGANIZER])
    by (repeat constructor; by apply (bool_decide_unpack _)).
  destruct (sidebar_groups_by_role "/events" [ROLES.ORGANIZER] HR)
    as (groups & Hrun & _ & Hcontents & Hutils).
  split; [exact HR|]. exists groups.
  split; [exact Hrun|]. split; [exact Hcontents | exact Hutils].
Defined.

(** Without a user, or without roles on it, the sidebar is empty; with an
    empty role list only Dashboard is left. *)
Lemma sidebar_without_roles (pathname : string) :
  getFilteredNavItems pathname None
    = Ok {| g_navMain := []; g_navContents := []; g_navUtils := [] |} ∧
  ∃ groups,
    getFilteredNavItems pathname (Some []) = Ok groups ∧
    titles (g_navMain groups) = ["Dashboard"] ∧
    g_navContents groups = [] ∧ g_navUtils groups = [].
Proof. split; [done|]. by eexists. Qed.

Lemma existsb_sub_url pathname (subItems : list SubItem) :
  existsb (λ subItem, bool_decide (pathname = sub_url subItem)) subItems
  = bool_decide (pathname ∈ map sub_url subItems).
Proof.
  induction subItems as [|x l IH]; [done|].
  cbn [existsb map]. rewrite IH.
  destruct (decide (pathname = sub_url x)) as [Heq|Hne].
  - rewrite (bool_decide_eq_true_2 _ Heq). simpl. symmetry.
    apply bool_decide_eq_true_2. rewrite Heq. by left.
  - rewrite (bool_decide_eq_false_2 _ Hne). simpl.
    apply bool_decide_ext. rewrite elem_of_cons.
    split; [by right | by intros [?|?]].
Qed.

Lemma isActive_with_sub_items pathname url (subItems : list SubItem) :
  isActive pathname url (Some subItems)
  = bool_decide (pathname ∈ url :: map sub_url subItems).
Proof.
  unfold isActive. rewrite existsb_sub_url.
  destruct (decide (pathname = url)) as [Heq|Hne].
  - rewrite (bool_decide_eq_true_2 _ Heq). symmetry.
    apply bool_decide_eq_true_2. rewrite Heq. by left.
  - rewrite (bool_decide_eq_false_2 _ Hne).
    apply bool_decide_ext. rewrite elem_of_cons.
    split; [by right | by intros [?|?]].
Qed.

(** X30: a content entry of the sidebar is active exactly on its own URL
    and on the URLs of its sub-items (not on deeper routes); Dashboard is
    active on [/] only; Settings on every path that starts with
    [/settings]. *)
Theorem sidebar_active_entries (pathname : string) :
  (∀ item,
     item ∈ navContents →
     ne_isActive (content_entry pathname item)
     = bool_decide
         (pathname ∈ nav_url item
                     :: map sub_url (default [] (nav_items item)))) ∧
  (∀ item,
     item ∈ navMain →
     ne_isActive (plain_entry pathname item) = bool_decide (pathname = "/")) ∧
  (∀ item,
     item ∈ navUtils →
     ne_isActive (plain_entry pathname item)
     = String.prefix "/settings" pathname).
Proof.
  split; [|split].
  - intros item Hin.
    assert (∃ subItems, nav_items item = Some subItems) as [subItems Hsub].
    { unfold navContents in Hin.
      repeat (apply elem_of_cons in Hin as [->|Hin]); [by eexists ..|].
      by apply elem_of_nil in Hin. }
    unfold content_entry. cbn [ne_isActive]. rewrite Hsub.
    apply isActive_with_sub_items.
  - intros item Hin. apply list_elem_of_singleton in Hin as ->.
    unfold plain_entry, isActive. simpl.
    by case_bool_decide.
  - intros item Hin. apply list_elem_of_singleton in Hin as ->.
    unfold plain_entry, isActive. cbn [ne_isActive nav_url].
    case_bool_decide as Heq.
    + subst. reflexivity.
    + rewrite (bool_decide_eq_true_2 ("/settings" ≠ "/")) by done.
      simpl. by destruct (String.prefix _ _).
Qed.

(** ** Scenarios for the pages *)

Lemma hasPermission_throws_iff_witness :
  hasPermission [ROLES.VISITOR; "constructor"; ROLES.ADMIN]
      PERMISSIONS.CREATE_EVENT
  = Throw (TypeError "rolePermissions.includes is not a function").
Proof.
  apply hasPermission_throws_iff. split; [reflexivity|].
  exists [ROLES.VISITOR], "constructor", [ROLES.ADMIN].
  split; [reflexivity|]. split; [by apply (bool_decide_unpack _)|].
  repeat constructor.
  - by apply (bool_decide_unpack _).
  - intros (r & ps & Hr & Hps & Hin).
    apply list_elem_of_singleton in Hr as ->.
    vm_compute in Hps. injection Hps as <-. by apply elem_of_nil in Hin.
Defined.

Lemma createEventWithFiles_result_witness :
  let s := mounted false (signed_in expired) [] in
  let payload := VObj [("id", VStr "e1"); ("status", VStr "cancelled")] in
  apiPostForm events_url (create_form open_day)
      (tokenManager.getAuthHeader (env (world s))) (env (world s))
    = (Ok (VObj [("data", payload)]), env (world s)) ∧
  ∃ s', createEventWithFiles open_day s = (Ok payload, s').
Proof.
  intros s payload.
  assert (Hanswer :
    apiPostForm events_url (create_form open_day)
        (tokenManager.getAuthHeader (env (world s))) (env (world s))
      = (Ok (VObj [("data", payload)]), env (world s))) by reflexivity.
  destruct (createEventWithFiles_result s open_day _ _ Hanswer)
    as (v & s' & Hrun & _ & _ & Hdata).
  split; [exact Hanswer|]. exists s'.
  rewrite Hrun. f_equal. f_equal.
  exact (Hdata [("data", payload)] payload eq_refl eq_refl eq_refl eq_refl).
Defined.

Lemma getEventDetails_outcomes_witness :
  let s : Sys Script bool := mounted false (signed_in healthy) [] in
  apiGet (event_url "e1") (tokenManager.getAuthHeader (env (world s)))
      (env (world s))
    = (Ok (VObj [("data", VNull)]), env (world s)) ∧
  ∃ text, (getEventDetails "e1" s).1 = Throw (TypeError text).
Proof.
  intros s.
  assert (Hanswer :
    apiGet (event_url "e1") (tokenManager.getAuthHeader (env (world s)))
        (env (world s))
      = (Ok (VObj [("data", VNull)]), env (world s))) by reflexivity.
  split; [exact Hanswer|].
  exact (proj2 (getEventDetails_outcomes s "e1" _ _ Hanswer)).
Defined.

Lemma open_day_valid : form_valid open_day.
Proof. repeat split; try reflexivity; simpl; lia. Qed.

Lemma untitled_invalid : ¬ form_valid untitled.
Proof. intros [Htitle _]. discriminate Htitle. Qed.

Lemma handleSubmit_sends_only_valid_forms_witness :
  let s := mounted false (signed_in expired) [] in
  form_valid open_day ∧ ¬ form_valid untitled ∧
  requests (new_effects s (handleSubmit open_day s).2)
    = [EPostForm events_url (create_form open_day)
         (tokenManager.getAuthHeader (env (world s)))] ∧
  ∃ text, new_effects s (handleSubmit untitled s).2 = [EToastError text].
Proof.
  intros s.
  destruct (handleSubmit_sends_only_valid_forms s open_day)
    as (_ & _ & Hsend & _).
  destruct (handleSubmit_sends_only_valid_forms s untitled)
    as (_ & _ & _ & Hrefuse).
  split; [exact open_day_valid|]. split; [exact untitled_invalid|].
  split; [exact (proj1 (Hsend open_day_valid))|].
  destruct (Hrefuse untitled_invalid) as (_ & text & _ & Htoast).
  by exists text.
Defined.

Lemma destructive_actions_are_guarded_witness :
  let s := mounted (details (Some pending_event)) (signed_in expired) [false] in
  is_Some (ed_event (view s)) ∧ head (answers s) ≠ Some true ∧
  world (handleDeleteEvent s).2 = world s ∧
  new_effects s (handleDeleteEvent s).2 = [EConfirm delete_question].
Proof.
  intros s.
  assert (Hshown : is_Some (ed_event (view s))) by (by eexists).
  assert (Hno : head (answers s) ≠ Some true) by discriminate.
  destruct (destructive_actions_are_guarded s) as [_ Hguard].
  destruct (Hguard Hshown Hno) as (_ & _ & _ & _ & Hworld & Heffects).
  split; [exact Hshown|]. split; [exact Hno|].
  split; [exact Hworld | exact Heffects].
Defined.

Lemma handleDeclineEvent_outcomes_witness :
  let s := mounted (details (Some pending_event)) (signed_in expired) [true] in
  ed_event (view s) = Some pending_event ∧ head (answers s) = Some true ∧
  ToString (event_id pending_event) = Ok "e1" ∧
  ed_event (view (handleDeclineEvent s).2)
    = Some [("id", VStr "e1"); ("title", VStr "Open day");
            ("status", VStr "cancelled"); ("is_published", VBool false)].
Proof.
  intros s.
  destruct (handleDeclineEvent_outcomes s pending_event "e1"
              eq_refl eq_refl eq_refl)
    as (_ & _ & _ & Hdone).
  split; [reflexivity|]. split; [reflexivity|]. split; [reflexivity|].
  exact (proj1 Hdone).
Defined.

Lemma handleApproveEvent_outcomes_witness :
  let s := mounted (details (Some numbered_event)) (signed_in offline) [] in
  ed_event (view s) = Some numbered_event ∧
  ToString (event_id numbered_event) = Ok "7" ∧
  requests (new_effects s (handleApproveEvent s).2)
    = [EPost "/api/v1/admin/events/7/approve" VUndefined
         (tokenManager.getAuthHeader (env (world s)))] ∧
  ed_event (view (handleApproveEvent s).2) = Some numbered_event ∧
  EToastError "Failed to fetch" ∈ new_effects s (handleApproveEvent s).2.
Proof.
  intros s.
  assert (Hid : ToString (event_id numbered_event) = Ok "7")
    by (by vm_compute).
  destruct (handleApproveEvent_outcomes s numbered_event "7" eq_refl Hid)
    as (_ & _ & Hrequest & Hfailed).
  split; [reflexivity|]. split; [exact Hid|].
  split; [exact Hrequest | exact Hfailed].
Defined.

Lemma handlePublishToggle_flips_witness :
  let s := mounted (details (Some pending_event)) (signed_in expired) [] in
  ed_event (view s) = Some pending_event ∧
  ToString (event_id pending_event) = Ok "e1" ∧
  ∃ event',
    ed_event (view (handlePublishToggle s).2) = Some event' ∧
    obj_get event' "is_published" = Some (VBool true) ∧
    EToastSuccess "Event published successfully"
      ∈ new_effects s (handlePublishToggle s).2.
Proof.
  intros s.
  assert (Hanswer :
    apiPost (event_url "e1" +:+ "/publish") VUndefined
        (tokenManager.getAuthHeader (env (world s))) (env (world s))
      = (Ok (VObj [("data", VObj [("id", VStr "e1");
                                  ("status", VStr "cancelled")])]),
         env (world s))) by reflexivity.
  destruct (handlePublishToggle_flips s pending_event "e1" _ _
              eq_refl eq_refl Hanswer)
    as (event' & Hevent & Hflag & _ & Htoast).
  split; [reflexivity|]. split; [reflexivity|]. exists event'.
  split; [exact Hevent|]. split; [exact Hflag | exact Htoast].
Defined.

Lemma handleFileSelect_reports_valid_files_witness :
  let s : Sys Script bool := mounted false (signed_in expired) [] in
  let selected := [handbook; aerial; poster] in
  Forall (matchable image_upload) selected ∧
  files_changes (new_effects s (handleFileSelect image_upload (Some selected)
                                  s).2)
    = [[poster]] ∧
  length (alerts (new_effects s (handleFileSelect image_upload (Some selected)
                                   s).2)) = 2%nat.
Proof.
  intros s selected.
  assert (Hall : Forall (matchable image_upload) selected)
    by (repeat constructor; by eexists).
  destruct (handleFileSelect_reports_valid_files image_upload selected s Hall)
    as (_ & Hchange & _ & _).
  split; [exact Hall|]. split; [exact Hchange | reflexivity].
Defined.

Lemma removeFile_deletes_one_witness :
  let s : Sys Script bool := mounted false (signed_in expired) [] in
  (1 < length (files gallery))%nat ∧
  new_effects s (removeFile gallery 1 s).2 = [EFilesChange [poster]] ∧
  length (delete 1 (files gallery)) = 1%nat.
Proof.
  intros s.
  assert (Hin : (1 < length (files gallery))%nat) by (simpl; lia).
  destruct (removeFile_deletes_one gallery 1 s) as (Hcall & Hshorter & _).
  split; [exact Hin|]. split; [exact Hcall|]. exact (Hshorter Hin).
Defined.

Lemma handleDrop_outcomes_witness :
  let s : Sys Script bool := mounted true (signed_in expired) [] in
  disabled gallery = true ∧
  handleDrop gallery (Some [poster]) s
    = (Ok (), mounted false (signed_in expired) []).
Proof.
  intros s. split; [reflexivity|].
  destruct (handleDrop_outcomes gallery (Some [poster]) s)
    as (_ & _ & Hdisabled & _).
  exact (Hdisabled eq_refl).
Defined.

Lemma sidebar_active_entries_witness :
  let events := {| nav_title := "Events"; nav_url := "/events";
                   nav_items := Some
                     [ {| sub_title := "All Events"; sub_url := "/events" |};
                       {| sub_title := "Add new";
                          sub_url := "/events/create" |};
                       {| sub_title := "Categories";
                          sub_url := "/events/categories" |} ] |} in
  (events ∈ navContents) ∧
  ne_isActive (content_entry "/events/create" events) = true ∧
  ne_isActive (content_entry "/events/e1" events) = false.
Proof.
  intros events.
  assert (Hin : events ∈ navContents) by (by left).
  destruct (sidebar_active_entries "/events/create") as (Hcreate & _).
  destruct (sidebar_active_entries "/events/e1") as (Hdetail & _).
  split; [exact Hin|].
  split; [exact (Hcreate events Hin) | exact (Hdetail events Hin)].
Defined.

(** ** The models at work *)

Example alice_json_round_trip :
  JSON_stringify alice = alice_json ∧
  JSON_parse alice_json = Ok (Some alice) ∧
  JSON_parse "{u1}" = Throw (OtherError "SyntaxError").
Proof. repeat split; by vm_compute. Qed.

Example printed_ids :
  ToString (VStr "e1") = Ok "e1" ∧ ToString (VNum 7) = Ok "7" ∧
  ToString VNull = Ok "null" ∧
  ToString (VArr [VNum 1; VNull; VStr "a"]) = Ok "1,,a".
Proof. repeat split; by vm_compute. Qed.

Example getEvents_url :
  let s : Sys Script bool := mounted false (signed_in expired) [] in
  new_effects s (getEvents (Some (loadEvents_params 2 "open day" "all")) s).2
  = [EGet "/api/v1/admin/events?page=2&per_page=20&search=open+day"
       (tokenManager.getAuthHeader (env (world s)))].
Proof. reflexivity. Qed.

Example sidebar_of_an_organizer :
  titles <$> (g_navContents <$>
    match getFilteredNavItems "/events" (Some [ROLES.ORGANIZER]) with
    | Ok groups => Some groups | Throw _ => None end)
  = Some ["Events"; "Feedbacks"].
Proof. reflexivity. Qed.
